(** * storescu: a DICOM Storage SCU script

    A shallow embedding of [pynetdicom/apps/storescu/storescu.py].  The
    script reads one DICOM file, resolves the byte order from the file's
    transfer syntax, requests an association and, when it is established,
    rewrites the ambiguous value representations of the data set in place,
    sends the data set with C-STORE and releases the association.

    The script is a sequence of module-level statements.  It is embedded
    as a computation in a state-and-exception monad: the state holds the
    mutable objects of the script (the logger level, the elements of the
    data set, the [status] variable) and the trace of the effects that
    leave the process; the exception models Python's [raise].  The
    libraries the script calls ([pydicom.read_file], the application
    entity and its association) are an oracle, [World]. *)

From Stdlib Require Import ZArith NArith Lia HexadecimalString Strings.Byte Strings.Ascii.
From stdpp Require Import base strings list.

(** ** Python primitives used by the script *)

Module Py.

Inductive byteorder := little | big.

(** [int.from_bytes(bs, byteorder=...)] with the default [signed=False]:
    defined for a byte string of any length, the empty one included. *)
Definition int_from_bytes (bs : list byte) (order : byteorder) : Z :=
  match order with
  | little => foldr (λ b acc, Z.of_N (Byte.to_N b) + 256 * acc)%Z 0%Z bs
  | big => foldl (λ acc b, 256 * acc + Z.of_N (Byte.to_N b))%Z 0%Z bs
  end.

(** [s.split(sep)] for a one-character separator: never empty, and
    consecutive separators give empty fields. *)
Fixpoint split (sep : Ascii.ascii) (s : string) : list string :=
  match s with
  | EmptyString => [EmptyString]
  | String c rest =>
      if Ascii.eqb c sep then EmptyString :: split sep rest
      else match split sep rest with
           | [] => [String c EmptyString]
           | w :: ws => String c w :: ws
           end
  end.

(** [sep.join(parts)] *)
Definition join (sep : string) (parts : list string) : string :=
  String.concat sep parts.

(** [s.zfill(width)]-style padding on the left with the character 0. *)
Fixpoint pad0 (n : nat) (s : string) : string :=
  match n with
  | O => s
  | S n' => String "0"%char (pad0 n' s)
  end.

(** ['%04x' % n]: lower-case hexadecimal, at least four digits. *)
Definition fmt_04x (n : N) : string :=
  let digits := NilZero.string_of_uint (N.to_hex_uint n) in
  pad0 (4 - String.length digits) digits.

End Py.

(** ** Data model *)

Inductive Value :=
| Bytes (bs : list byte)
| Int (n : Z).

Record Tag := { group : N; elem : N }.

Record DataElement := {
  tag : Tag;
  VR : string;
  value : Value;
  description : string
}.

(** [elem.VR = vr] and [elem.value = v] *)
Definition put_VR (vr : string) (e : DataElement) : DataElement :=
  {| tag := tag e; VR := vr; value := value e; description := description e |}.

Definition put_value (v : Value) (e : DataElement) : DataElement :=
  {| tag := tag e; VR := VR e; value := v; description := description e |}.

Record FileMeta := { TransferSyntaxUID : string }.

Record Dataset := {
  file_meta : FileMeta;
  elements : list DataElement
}.

Inductive TransferSyntax :=
| ImplicitVRLittleEndian
| ExplicitVRLittleEndian
| ExplicitVRBigEndian.

Inductive SOPClass :=
| CTImageStorageSOPClass
| MRImageStorageSOPClass.

Inductive Status :=
| Success
| Warning (code : Z)
| Failure (code : Z).

(** Command line, as [argparse] returns it (the options the script never
    reads are left out, [quiet] is kept to show that it is not read). *)
Record Args := {
  peer : string;
  port : Z;
  dcmfile_in : string;
  quiet : bool;
  verbose : bool;
  debug : bool;
  calling_aet : string;
  called_aet : string
}.

(** ** Logging *)

Inductive Level := DEBUG | INFO | ERROR.

Definition levelno (l : Level) : Z :=
  match l with DEBUG => 10 | INFO => 20 | ERROR => 40 end.

Definition levelname (l : Level) : string :=
  match l with DEBUG => "DEBUG" | INFO => "INFO" | ERROR => "ERROR" end.

(** [logging.Formatter('%(levelname).1s: %(message)s')] *)
Definition formatter (l : Level) (message : string) : string :=
  String.substring 0 1 (levelname l) +:+ ": " +:+ message.

(** ** Effects, exceptions and state *)

Inductive Event :=
| Emit (line : string)
| CreateAE (aet : string) (local_port : Z) (scu : list SOPClass)
    (scp : list SOPClass) (ts : list TransferSyntax)
| RequestAssociation (host : string) (remote_port : Z) (aet : string)
| SendCStore (ds : list DataElement)
| Release
| Quit.

Inductive Exn :=
| SystemExit (code : option Z)
| IOError
| OtherError
| TypeError
| IndexError
| SendError.

Record State := {
  level : Level;
  trace : list Event;
  dataset : list DataElement;
  status : option Status
}.

(** The interpreter's initial state; line 28 sets the level to ERROR. *)
Definition initial : State :=
  {| level := ERROR; trace := []; dataset := []; status := None |}.

Definition with_level (l : Level) (st : State) : State :=
  {| level := l; trace := trace st; dataset := dataset st; status := status st |}.

Definition with_trace (t : list Event) (st : State) : State :=
  {| level := level st; trace := t; dataset := dataset st; status := status st |}.

Definition with_dataset (d : list DataElement) (st : State) : State :=
  {| level := level st; trace := trace st; dataset := d; status := status st |}.

Definition with_status (s : option Status) (st : State) : State :=
  {| level := level st; trace := trace st; dataset := dataset st; status := s |}.

Definition M (A : Type) : Type := State → (Exn + A) * State.

#[export] Instance M_ret : MRet M := λ A x st, (inr x, st).

#[export] Instance M_bind : MBind M := λ A B f m st,
  match m st with
  | (inl e, st') => (inl e, st')
  | (inr x, st') => f x st'
  end.

Definition raise {A} (e : Exn) : M A := λ st, (inl e, st).

(** [try: body except: handler] with the exception passed to the handler,
    which dispatches on it as the [except] clauses do. *)
Definition try_except {A} (body : M A) (handler : Exn → M A) : M A := λ st,
  match body st with
  | (inl e, st') => handler e st'
  | r => r
  end.

Fixpoint for_in {A} (xs : list A) (body : A → M unit) : M unit :=
  match xs with
  | [] => mret tt
  | x :: xs' => body x;; for_in xs' body
  end.

Definition when (b : bool) (m : M unit) : M unit :=
  if b then m else mret tt.

Definition event (e : Event) : M unit := λ st,
  (inr tt, with_trace (trace st ++ [e]) st).

(** ** The world outside the script *)

Inductive ReadOutcome :=
| RaisesIOError
| RaisesOther
| Parsed (ds : Dataset).

Inductive SendOutcome :=
| Returns (s : Status)
| Raises.

(** [read_file] is the outcome of lines 108-110 as a whole (open, parse,
    close); [Established] is the flag of the association object that
    [request_association] returns; [send_c_store] either returns a status
    or raises. *)
Record World := {
  read_file : string → ReadOutcome;
  Established : string → Z → string → bool;
  send_c_store : list DataElement → SendOutcome
}.

(** ** The script *)

Section Script.

Variable args : Args.
Variable w : World.

(** [logger.setLevel] *)
Definition setLevel (l : Level) : M unit := λ st, (inr tt, with_level l st).

(** [logger.debug], [logger.info], [logger.error]: the record reaches the
    stream handler when its level is at least the logger's. *)
Definition log (l : Level) (message : string) : M unit := λ st,
  if (levelno (level st) <=? levelno l)%Z
  then event (Emit (formatter l message)) st
  else (inr tt, st).

(** [sys.exit()] *)
Definition sys_exit {A} : M A := raise (SystemExit None).

(** Lines 108-110: [open], [read_file(f, force=True)], [f.close()]. *)
Definition open_and_read (path : string) : M Dataset := λ st,
  match read_file w path with
  | RaisesIOError => (inl IOError, st)
  | RaisesOther => (inl OtherError, st)
  | Parsed ds => (inr ds, st)
  end.

(** Lines 118-122. *)
Definition byte_order (uid : string) : Py.byteorder :=
  if bool_decide (uid ∈ ["1.2.840.10008.1.2"; "1.2.840.10008.1.2.1"])
  then Py.little else Py.big.

(** Access to the element at position [i] of the data set: [elem] in the
    loop is a reference to that object, so its attributes are read and
    written through the data set. *)
Definition get_elem (i : nat) : M DataElement := λ st,
  match dataset st !! i with
  | Some e => (inr e, st)
  | None => (inl IndexError, st)
  end.

Definition set_VR (i : nat) (vr : string) : M unit := λ st,
  (inr tt, with_dataset (alter (put_VR vr) i (dataset st)) st).

Definition set_value (i : nat) (v : Value) : M unit := λ st,
  (inr tt, with_dataset (alter (put_value v) i (dataset st)) st).

(** [int.from_bytes(elem.value, ...)]: an [int] argument is a TypeError. *)
Definition int_from_bytes (v : Value) (order : Py.byteorder) : M Z :=
  match v with
  | Bytes bs => mret (Py.int_from_bytes bs order)
  | Int _ => raise TypeError
  end.

Definition undefined_VR_message (name : string) (g e : N) (vr : string)
  : string :=
  "Setting undefined VR of " +:+ name +:+ " (" +:+ Py.fmt_04x g +:+ ", "
    +:+ Py.fmt_04x e +:+ ") to '" +:+ vr +:+ "'".

(** Lines 150-165, the body of [for elem in dataset]. *)
Definition correct_elem (order : Py.byteorder) (i : nat) : M unit :=
  e ← get_elem i;
  let elem_name := Py.join "" (Py.split " " (description e)) in
  let elem_group := group (tag e) in
  let elem_element := elem (tag e) in
  (if decide (VR e = "US or SS") then
     log DEBUG (undefined_VR_message elem_name elem_group elem_element "US");;
     set_VR i "US";;
     e1 ← get_elem i;
     n ← int_from_bytes (value e1) order;
     set_value i (Int n)
   else mret tt);;
  e2 ← get_elem i;
  (if decide (VR e2 = "OB or OW") then
     log DEBUG (undefined_VR_message elem_name elem_group elem_element "OW");;
     set_VR i "OW"
   else mret tt).

(** Lines 149-165: the loop visits the elements in the order of the data
    set, each one once. *)
Definition correct_ambiguous_VRs (order : Py.byteorder) : M unit :=
  λ st, for_in (seq 0 (length (dataset st))) (correct_elem order) st.

(** [dataset = ...] and [status = ...]: assignment to a global name. *)
Definition bind_dataset (d : list DataElement) : M unit := λ st,
  (inr tt, with_dataset d st).

Definition bind_status (s : Status) : M unit := λ st,
  (inr tt, with_status (Some s) st).

(** [assoc.send_c_store(dataset)]: the call is traced with the data set
    as it is at that moment, then it returns a status or raises. *)
Definition assoc_send_c_store : M Status := λ st,
  let st' := with_trace (trace st ++ [SendCStore (dataset st)]) st in
  match send_c_store w (dataset st) with
  | Returns s => (inr s, st')
  | Raises => (inl SendError, st')
  end.

Definition transfer_syntax : list TransferSyntax :=
  [ImplicitVRLittleEndian; ExplicitVRLittleEndian; ExplicitVRBigEndian].

(** Lines 92-103: the verbosity options and the first debug records. *)
Definition configure_logging : M unit :=
  when (verbose args) (setLevel INFO);;
  when (debug args) (setLevel DEBUG);;
  log DEBUG ("$storescu.py v" +:+ "0.1.0" +:+ " " +:+ "2016-02-10" +:+ " $");;
  log DEBUG "".

(** Lines 106-116: the input file is read inside [try]; [except IOError]
    and the bare [except] log an error and call [sys.exit()]. *)
Definition read_input : M Dataset :=
  log DEBUG "Checking input files";;
  try_except (open_and_read (dcmfile_in args))
    (λ exn, match exn with
            | IOError =>
                log ERROR ("Cannot read input file " +:+ dcmfile_in args);;
                sys_exit
            | _ =>
                log ERROR ("File may not be DICOM " +:+ dcmfile_in args);;
                sys_exit
            end).

(** Lines 145-169, the body of [if assoc.Established]. *)
Definition transmit (order : Py.byteorder) : M unit :=
  log INFO ("Sending file: " +:+ dcmfile_in args);;
  correct_ambiguous_VRs order;;
  s ← assoc_send_c_store;
  bind_status s;;
  event Release.

(** Lines 92-173. *)
Definition storescu : M unit :=
  configure_logging;;
  ds ← read_input;
  bind_dataset (elements ds);;
  let order := byte_order (TransferSyntaxUID (file_meta ds)) in
  event (CreateAE (calling_aet args) 0 [CTImageStorageSOPClass] []
           transfer_syntax);;
  event (RequestAssociation (peer args) (port args) (called_aet args));;
  (if Established w (peer args) (port args) (called_aet args)
   then transmit order
   else mret tt);;
  event Quit.

(** The process: the script run from the interpreter's initial state. *)
Definition run : (Exn + unit) * State := storescu initial.

End Script.

(** Exit status of the interpreter: 0 at the end of the script and for
    [sys.exit()] without argument, the given code for [sys.exit(n)], 1 for
    an exception that nothing catches. *)
Definition exit_status (r : (Exn + unit) * State) : Z :=
  match fst r with
  | inr _ => 0
  | inl (SystemExit None) => 0
  | inl (SystemExit (Some n)) => n
  | inl _ => 1
  end.

(** The Corrector as a function of the data set: the loop run on a state
    that holds it.  A raised exception leaves the loop with the elements
    rewritten so far. *)
Definition Corrector (order : Py.byteorder) (ds : list DataElement)
  : (Exn + unit) * list DataElement :=
  let r := correct_ambiguous_VRs order (with_dataset ds initial) in
  (fst r, dataset (snd r)).

(** ** The unsigned integer a byte string stands for

    The value as the specification words it, to compare [int.from_bytes]
    with: the byte at position [i] weighs [256 ^ i] in little-endian order
    and [256 ^ (n - 1 - i)] in big-endian order, [n] being the number of
    bytes. *)

Fixpoint positional (exponent : nat → nat) (bs : list byte) (i : nat) : Z :=
  match bs with
  | [] => 0
  | b :: bs' =>
      (Z.of_N (Byte.to_N b) * 256 ^ Z.of_nat (exponent i)
       + positional exponent bs' (S i))%Z
  end.

Definition unsigned_integer (order : Py.byteorder) (bs : list byte) : Z :=
  match order with
  | Py.little => positional (λ i, i) bs 0
  | Py.big => positional (λ i, length bs - 1 - i) bs 0
  end.

(** ** What one pass of the loop body does to an element *)

(** [rewritten] is the element after lines 153-165 and [raised] tells
    whether line 157 raised on the way. *)
Definition rewritten (order : Py.byteorder) (e : DataElement) : DataElement :=
  if decide (VR e = "US or SS") then
    match value e with
    | Bytes bs => put_value (Int (Py.int_from_bytes bs order)) (put_VR "US" e)
    | Int _ => put_VR "US" e
    end
  else if decide (VR e = "OB or OW") then put_VR "OW" e
  else e.

Definition raised (e : DataElement) : bool :=
  if decide (VR e = "US or SS") then
    match value e with Bytes _ => false | Int _ => true end
  else false.

Fixpoint rewrite_all (order : Py.byteorder) (ds : list DataElement)
  : (Exn + unit) * list DataElement :=
  match ds with
  | [] => (inr tt, [])
  | e :: ds' =>
      if raised e then (inl TypeError, rewritten order e :: ds')
      else let r := rewrite_all order ds' in (fst r, rewritten order e :: snd r)
  end.

(** A data set is decodable when every element that the Corrector will
    decode holds a byte string, as every element does after parsing. *)
Definition decodable (ds : list DataElement) : Prop :=
  Forall (λ e, VR e = "US or SS" → ∃ bs, value e = Bytes bs) ds.

Definition ambiguous (e : DataElement) : Prop :=
  VR e = "US or SS" ∨ VR e = "OB or OW".

(** ** Reading traces and comparing states *)

(** The events of a trace that are calls into the network library. *)
Definition is_call (ev : Event) : bool :=
  match ev with Emit _ => false | _ => true end.

Definition calls (t : list Event) : list Event := List.filter is_call t.

Definition is_send (ev : Event) : bool :=
  match ev with SendCStore _ => true | _ => false end.

Definition is_release (ev : Event) : bool :=
  match ev with Release => true | _ => false end.

Definition is_quit (ev : Event) : bool :=
  match ev with Quit => true | _ => false end.

(** [logged st st']: [st'] is [st] after some lines were emitted. *)
Definition logged (st st' : State) : Prop :=
  ∃ lines, st' = with_trace (trace st ++ (Emit <$> lines)) st.

(** What the stream handler prints for the two [except] clauses, and the
    two calls that open the association. *)
Definition cannot_read (args : Args) : Event :=
  Emit (formatter ERROR ("Cannot read input file " +:+ dcmfile_in args)).

Definition may_not_be_DICOM (args : Args) : Event :=
  Emit (formatter ERROR ("File may not be DICOM " +:+ dcmfile_in args)).

Definition create_AE (args : Args) : Event :=
  CreateAE (calling_aet args) 0 [CTImageStorageSOPClass] [] transfer_syntax.

Definition request_association (args : Args) : Event :=
  RequestAssociation (peer args) (port args) (called_aet args).

(** Two worlds that differ at most in the status code that
    [send_c_store] returns. *)
Definition same_but_status_code (w w' : World) : Prop :=
  (∀ path, read_file w path = read_file w' path) ∧
  (∀ host p aet, Established w host p aet = Established w' host p aet) ∧
  (∀ ds, match send_c_store w ds, send_c_store w' ds with
         | Returns _, Returns _ => True
         | Raises, Raises => True
         | _, _ => False
         end).

(** Two states that differ at most in the [status] variable. *)
Definition same_but_status (st st' : State) : Prop :=
  level st = level st' ∧ trace st = trace st' ∧ dataset st = dataset st'.

(** ** The run as a table

    What the script does, read off its branches: the level the options
    set, the records that pass it, and the final state for each outcome of
    the calls into the libraries. *)

(** The level of the logger after lines 92-100. *)
Definition configured_level (args : Args) : Level :=
  if debug args then DEBUG else if verbose args then INFO else ERROR.

(** What a record of level [l] adds to the trace when the logger is at
    level [lvl]. *)
Definition emitted (lvl l : Level) (message : string) : list Event :=
  if (levelno lvl <=? levelno l)%Z then [Emit (formatter l message)] else [].

(** Line 150. *)
Definition elem_name (e : DataElement) : string :=
  Py.join "" (Py.split " " (description e)).

(** What lines 153-165 log for one element. *)
Definition elem_lines (lvl : Level) (e : DataElement) : list Event :=
  if decide (VR e = "US or SS") then
    emitted lvl DEBUG
      (undefined_VR_message (elem_name e) (group (tag e)) (elem (tag e)) "US")
  else if decide (VR e = "OB or OW") then
    emitted lvl DEBUG
      (undefined_VR_message (elem_name e) (group (tag e)) (elem (tag e)) "OW")
  else [].

(** What the loop logs, up to the element on which line 157 raises. *)
Fixpoint loop_lines (lvl : Level) (ds : list DataElement) : list Event :=
  match ds with
  | [] => []
  | e :: ds' => elem_lines lvl e ++ (if raised e then [] else loop_lines lvl ds')
  end.

(** What lines 102-106 log. *)
Definition banner (args : Args) : list Event :=
  emitted (configured_level args) DEBUG
    ("$storescu.py v" +:+ "0.1.0" +:+ " " +:+ "2016-02-10" +:+ " $")
  ++ emitted (configured_level args) DEBUG ""
  ++ emitted (configured_level args) DEBUG "Checking input files".

Definition final (args : Args) (t : list Event) (d : list DataElement)
    (s : option Status) : State :=
  {| level := configured_level args; trace := banner args ++ t;
     dataset := d; status := s |}.

Definition expected (args : Args) (w : World) : (Exn + unit) * State :=
  match read_file w (dcmfile_in args) with
  | RaisesIOError =>
      (inl (SystemExit None), final args [cannot_read args] [] None)
  | RaisesOther =>
      (inl (SystemExit None), final args [may_not_be_DICOM args] [] None)
  | Parsed f =>
      if Established w (peer args) (port args) (called_aet args) then
        let c := Corrector (byte_order (TransferSyntaxUID (file_meta f)))
                   (elements f) in
        let t := [create_AE args; request_association args]
                 ++ emitted (configured_level args) INFO
                      ("Sending file: " +:+ dcmfile_in args)
                 ++ loop_lines (configured_level args) (elements f) in
        match fst c with
        | inl x => (inl x, final args t (snd c) None)
        | inr _ =>
            match send_c_store w (snd c) with
            | Returns s =>
                (inr tt,
                 final args (t ++ [SendCStore (snd c); Release; Quit])
                   (snd c) (Some s))
            | Raises =>
                (inl SendError,
                 final args (t ++ [SendCStore (snd c)]) (snd c) None)
            end
        end
      else
        (inr tt,
         final args [create_AE args; request_association args; Quit]
           (elements f) None)
  end.

(** The lines of a trace that the stream handler printed. *)
Definition printed (t : list Event) : list Event :=
  List.filter (λ ev, negb (is_call ev)) t.

(** A string without its space characters. *)
Fixpoint without_spaces (s : string) : string :=
  match s with
  | EmptyString => EmptyString
  | String c rest =>
      if Ascii.eqb c " " then without_spaces rest
      else String c (without_spaces rest)
  end.

(** The command line with the option [-q] given or not. *)
Definition with_quiet (b : bool) (args : Args) : Args :=
  {| peer := peer args; port := port args; dcmfile_in := dcmfile_in args;
     quiet := b; verbose := verbose args; debug := debug args;
     calling_aet := calling_aet args; called_aet := called_aet args |}.

Definition has_VR (vr : string) (e : DataElement) : bool :=
  bool_decide (VR e = vr).

(** ** Sample inputs *)

Module Sample.

Definition pixel_value : DataElement :=
  {| tag := {| group := 0x0028; elem := 0x0106 |};
     VR := "US or SS";
     value := Bytes [x00; x05];
     description := "Smallest Image Pixel Value" |}.

Definition pixel_data : DataElement :=
  {| tag := {| group := 0x7fe0; elem := 0x0010 |};
     VR := "OB or OW";
     value := Bytes [x01; x02; x03; x04];
     description := "Pixel Data" |}.

Definition patient_name : DataElement :=
  {| tag := {| group := 0x0010; elem := 0x0010 |};
     VR := "PN";
     value := Bytes [x44; x6f; x65];
     description := "Patient's Name" |}.

(** A US-or-SS element whose value is three bytes long. *)
Definition odd_length : DataElement :=
  {| tag := {| group := 0x0028; elem := 0x0107 |};
     VR := "US or SS";
     value := Bytes [x01; x02; x03];
     description := "Largest Image Pixel Value" |}.

Definition ct : Dataset :=
  {| file_meta := {| TransferSyntaxUID := "1.2.840.10008.1.2" |};
     elements := [patient_name; pixel_value; pixel_data] |}.

Definition argv : Args :=
  {| peer := "localhost"; port := 11112; dcmfile_in := "ct.dcm";
     quiet := false; verbose := false; debug := true;
     calling_aet := "STORESCU"; called_aet := "ANY-SCP" |}.

(** A peer that accepts the association and answers [s]. *)
Definition accepting (s : Status) : World :=
  {| read_file := λ _, Parsed ct;
     Established := λ _ _ _, true;
     send_c_store := λ _, Returns s |}.

(** A peer that rejects the association. *)
Definition rejecting : World :=
  {| read_file := λ _, Parsed ct;
     Established := λ _ _ _, false;
     send_c_store := λ _, Returns Success |}.

(** A peer that accepts the association and drops the connection
    during the exchange. *)
Definition dropping : World :=
  {| read_file := λ _, Parsed ct;
     Established := λ _ _ _, true;
     send_c_store := λ _, Raises |}.

(** No file at the given path. *)
Definition unreadable : World :=
  {| read_file := λ _, RaisesIOError;
     Established := λ _ _ _, true;
     send_c_store := λ _, Returns Success |}.

End Sample.

(** Inputs on the edges of the script. *)
Module Edge.

(** A US-or-SS element whose value is an integer already. *)
Definition decoded : DataElement :=
  {| tag := {| group := 0x0028; elem := 0x0108 |};
     VR := "US or SS";
     value := Int 7;
     description := "Smallest Pixel Value in Series" |}.

Definition series : Dataset :=
  {| file_meta := {| TransferSyntaxUID := "1.2.840.10008.1.2.1" |};
     elements := [Sample.patient_name; Sample.pixel_value; decoded;
                  Sample.pixel_data] |}.

(** A peer that accepts the association, for the file [series]. *)
Definition serving : World :=
  {| read_file := λ _, Parsed series;
     Established := λ _ _ _, true;
     send_c_store := λ _, Returns Success |}.

Definition plain : Args :=
  {| peer := "localhost"; port := 11112; dcmfile_in := "ct.dcm";
     quiet := false; verbose := false; debug := false;
     calling_aet := "STORESCU"; called_aet := "ANY-SCP" |}.


End Edge.

(** ** Lemmas on the primitives *)

Section Primitives.

Lemma int_from_bytes_little bs k :
  positional (λ i, i) bs k
  = (256 ^ Z.of_nat k * Py.int_from_bytes bs Py.little)%Z.
Proof.
  revert k. induction bs as [|b bs IH]; intros k; simpl.
  - lia.
  - rewrite IH. simpl. rewrite Nat2Z.inj_succ, Z.pow_succ_r by lia. ring.
Qed.

Lemma int_from_bytes_big bs : ∀ acc k n,
  k + length bs = n →
  foldl (λ a b, 256 * a + Z.of_N (Byte.to_N b))%Z acc bs
  = (acc * 256 ^ Z.of_nat (length bs)
     + positional (λ i, (n - 1 - i)%nat) bs k)%Z.
Proof.
  induction bs as [|b bs IH]; intros acc k n Hn; simpl.
  - lia.
  - rewrite (IH _ (S k) n) by (simpl in Hn; lia).
    simpl in Hn. replace (n - 1 - k) with (length bs) by lia.
    rewrite Nat2Z.inj_succ, Z.pow_succ_r by lia. ring.
Qed.

Lemma int_from_bytes_unsigned order bs :
  Py.int_from_bytes bs order = unsigned_integer order bs.
Proof.
  destruct order; simpl.
  - rewrite int_from_bytes_little. simpl. lia.
  - rewrite (int_from_bytes_big bs 0 0 (length bs)) by lia. lia.
Qed.

Lemma int_from_bytes_little_nonneg bs :
  (0 ≤ Py.int_from_bytes bs Py.little)%Z.
Proof. induction bs as [|b bs IH]; simpl in *; lia. Qed.

Lemma foldl_big_nonneg bs : ∀ acc,
  (0 ≤ acc)%Z →
  (0 ≤ foldl (λ a b, 256 * a + Z.of_N (Byte.to_N b)) acc bs)%Z.
Proof.
  induction bs as [|b bs IH]; intros acc Hacc; simpl; [done|].
  apply IH. lia.
Qed.

Lemma int_from_bytes_nonneg order bs : (0 ≤ Py.int_from_bytes bs order)%Z.
Proof.
  destruct order.
  - apply int_from_bytes_little_nonneg.
  - simpl. by apply foldl_big_nonneg.
Qed.

End Primitives.

(** ** The loop, step by step *)

Section Loop.

Lemma logged_refl st : logged st st.
Proof. exists []. destruct st; unfold with_trace; simpl. by rewrite app_nil_r. Qed.

Lemma logged_trans st1 st2 st3 : logged st1 st2 → logged st2 st3 → logged st1 st3.
Proof.
  intros [l1 ->] [l2 ->]. exists (l1 ++ l2).
  unfold with_trace; simpl. by rewrite fmap_app, app_assoc.
Qed.

Lemma logged_dataset st st' : logged st st' → dataset st' = dataset st.
Proof. by intros [l ->]. Qed.

Lemma calls_app t1 t2 : calls (t1 ++ t2) = calls t1 ++ calls t2.
Proof. apply List.filter_app. Qed.

Lemma calls_emit lines : calls (Emit <$> lines) = [].
Proof. induction lines as [|l lines IH]; [done|]. simpl. apply IH. Qed.

Lemma logged_calls st st' : logged st st' → calls (trace st') = calls (trace st).
Proof.
  intros [l ->]. simpl. by rewrite calls_app, calls_emit, app_nil_r.
Qed.

Lemma log_logged l m st : ∃ st', logged st st' ∧ log l m st = (inr tt, st').
Proof.
  unfold log. destruct (levelno (level st) <=? levelno l)%Z.
  - eexists. split; [|reflexivity]. by exists [formatter l m].
  - exists st. split; [apply logged_refl|done].
Qed.

Lemma with_dataset_id st : with_dataset (dataset st) st = st.
Proof. by destruct st. Qed.

Lemma get_elem_middle pre e suf st :
  dataset st = pre ++ e :: suf → get_elem (length pre) st = (inr e, st).
Proof. intros H. unfold get_elem. by rewrite H, list_lookup_middle. Qed.

Lemma set_VR_middle pre e suf vr st :
  dataset st = pre ++ e :: suf →
  set_VR (length pre) vr st
  = (inr tt, with_dataset (pre ++ put_VR vr e :: suf) st).
Proof.
  intros H. unfold set_VR. rewrite H.
  replace (length pre) with (length pre + 0) by lia.
  by rewrite alter_app_r.
Qed.

Lemma set_value_middle pre e suf v st :
  dataset st = pre ++ e :: suf →
  set_value (length pre) v st
  = (inr tt, with_dataset (pre ++ put_value v e :: suf) st).
Proof.
  intros H. unfold set_value. rewrite H.
  replace (length pre) with (length pre + 0) by lia.
  by rewrite alter_app_r.
Qed.

(** One iteration, on the element at the end of the prefix [pre]. *)
Lemma correct_elem_middle order pre e suf st :
  dataset st = pre ++ e :: suf →
  ∃ st1, logged st st1 ∧
    correct_elem order (length pre) st
    = (if raised e then inl TypeError else inr tt,
       with_dataset (pre ++ rewritten order e :: suf) st1).
Proof.
  intros H. unfold correct_elem, mbind, M_bind, rewritten, raised.
  rewrite (get_elem_middle pre e suf st H).
  destruct (decide (VR e = "US or SS")) as [Hus|Hus].
  - destruct (log_logged DEBUG
      (undefined_VR_message (Py.join "" (Py.split " " (description e)))
         (group (tag e)) (elem (tag e)) "US") st) as (st1 & Hlog & ->).
    assert (H1 : dataset st1 = pre ++ e :: suf)
      by (by rewrite (logged_dataset _ _ Hlog)).
    rewrite (set_VR_middle pre e suf "US" st1 H1).
    rewrite (get_elem_middle pre (put_VR "US" e) suf) by done.
    exists st1. split; [done|]. cbn [put_VR value].
    destruct (value e) as [bs|n]; cbn [int_from_bytes raise]; [|done].
    unfold mret, M_ret.
    rewrite (set_value_middle pre (put_VR "US" e) suf) by done.
    rewrite (get_elem_middle pre (put_value _ (put_VR "US" e)) suf) by done.
    by rewrite decide_False.
  - simpl. rewrite (get_elem_middle pre e suf st H).
    destruct (decide (VR e = "OB or OW")) as [Hob|Hob].
    + destruct (log_logged DEBUG
        (undefined_VR_message (Py.join "" (Py.split " " (description e)))
           (group (tag e)) (elem (tag e)) "OW") st) as (st1 & Hlog & ->).
      assert (H1 : dataset st1 = pre ++ e :: suf)
        by (by rewrite (logged_dataset _ _ Hlog)).
      rewrite (set_VR_middle pre e suf "OW" st1 H1). by exists st1.
    + exists st. split; [apply logged_refl|].
      by rewrite <- H, with_dataset_id.
Qed.

(** The loop over the suffix [suf] of the data set. *)
Lemma for_in_suffix order suf : ∀ pre st,
  dataset st = pre ++ suf →
  ∃ st1, logged st st1 ∧
    for_in (seq (length pre) (length suf)) (correct_elem order) st
    = (fst (rewrite_all order suf),
       with_dataset (pre ++ snd (rewrite_all order suf)) st1).
Proof.
  induction suf as [|e suf IH]; intros pre st H; simpl.
  - exists st. split; [apply logged_refl|].
    by rewrite <- H, with_dataset_id.
  - unfold mbind, M_bind.
    destruct (correct_elem_middle order pre e suf st H) as (st1 & Hlog & ->).
    destruct (raised e); [by exists st1|].
    destruct (IH (pre ++ [rewritten order e])
                (with_dataset (pre ++ rewritten order e :: suf) st1))
      as (st2 & Hlog2 & Hrun).
    { simpl. by rewrite <- app_assoc. }
    rewrite length_app, Nat.add_1_r in Hrun. rewrite Hrun.
    destruct Hlog2 as [lines ->].
    exists (with_trace (trace st1 ++ (Emit <$> lines)) st1). split.
    + eapply logged_trans; [done|]. by exists lines.
    + simpl. by rewrite <- app_assoc.
Qed.

Lemma correct_ambiguous_VRs_run order st :
  ∃ st1, logged st st1 ∧
    correct_ambiguous_VRs order st
    = (fst (rewrite_all order (dataset st)),
       with_dataset (snd (rewrite_all order (dataset st))) st1).
Proof.
  unfold correct_ambiguous_VRs.
  destruct (for_in_suffix order (dataset st) [] st eq_refl)
    as (st1 & Hlog & Hrun).
  by exists st1.
Qed.

Lemma Corrector_rewrite_all order ds :
  Corrector order ds = rewrite_all order ds.
Proof.
  unfold Corrector.
  destruct (correct_ambiguous_VRs_run order (with_dataset ds initial))
    as (st1 & Hlog & ->).
  simpl. by destruct (rewrite_all order ds).
Qed.

(** In any state the loop does to the data set what [Corrector] says and
    otherwise only emits log lines. *)
Lemma correct_ambiguous_VRs_Corrector order st :
  ∃ st1, logged st st1 ∧
    correct_ambiguous_VRs order st
    = (fst (Corrector order (dataset st)),
       with_dataset (snd (Corrector order (dataset st))) st1).
Proof. rewrite Corrector_rewrite_all. apply correct_ambiguous_VRs_run. Qed.

End Loop.

(** ** The Corrector on whole data sets *)

Section Rewriting.

Variable order : Py.byteorder.

Lemma rewritten_concrete e : ¬ ambiguous (rewritten order e).
Proof.
  unfold ambiguous, rewritten. intros H.
  destruct (decide (VR e = "US or SS")) as [Hus|Hus].
  - destruct (value e); simpl in H; by destruct H.
  - destruct (decide (VR e = "OB or OW")) as [Hob|Hob].
    + simpl in H. by destruct H.
    + by destruct H.
Qed.

Lemma rewritten_id e : ¬ ambiguous e → rewritten order e = e.
Proof.
  unfold ambiguous, rewritten. intros H.
  rewrite !decide_False; [done|tauto..].
Qed.

Lemma raised_concrete e : ¬ ambiguous e → raised e = false.
Proof.
  unfold ambiguous, raised. intros H. rewrite decide_False; [done|tauto].
Qed.

Lemma raised_false e :
  raised e = false ↔ (VR e = "US or SS" → ∃ bs, value e = Bytes bs).
Proof.
  unfold raised. destruct (decide (VR e = "US or SS")) as [Hus|Hus].
  - destruct (value e) as [bs|n]; split; try done.
    + by exists bs.
    + intros H. by destruct (H Hus).
  - by split.
Qed.

Lemma rewrite_all_decodable ds :
  decodable ds → rewrite_all order ds = (inr tt, rewritten order <$> ds).
Proof.
  induction 1 as [|e ds He Hds IH]; simpl; [done|].
  apply raised_false in He. by rewrite He, IH.
Qed.

Lemma rewrite_all_returns ds :
  fst (rewrite_all order ds) = inr tt → decodable ds.
Proof.
  induction ds as [|e ds IH]; simpl; [by constructor|].
  destruct (raised e) eqn:He; [done|]. simpl. intros H.
  constructor; [by apply raised_false|by apply IH].
Qed.

Lemma rewrite_all_raises ds x :
  fst (rewrite_all order ds) = inl x → x = TypeError.
Proof.
  induction ds as [|e ds IH]; simpl; [done|].
  destruct (raised e); simpl; [congruence|done].
Qed.

Lemma rewrite_all_concrete ds :
  Forall (λ e, ¬ ambiguous e) ds → rewrite_all order ds = (inr tt, ds).
Proof.
  induction 1 as [|e ds He Hds IH]; simpl; [done|].
  by rewrite raised_concrete, IH, rewritten_id.
Qed.

Lemma Corrector_decodable ds :
  decodable ds → Corrector order ds = (inr tt, rewritten order <$> ds).
Proof. rewrite Corrector_rewrite_all. apply rewrite_all_decodable. Qed.

Lemma Corrector_concrete ds :
  Forall (λ e, ¬ ambiguous e) ds → Corrector order ds = (inr tt, ds).
Proof. rewrite Corrector_rewrite_all. apply rewrite_all_concrete. Qed.

(** The Corrector returns exactly on the decodable data sets, and the
    only exception it raises is the TypeError of [int.from_bytes]. *)
Lemma Corrector_returns_iff ds :
  fst (Corrector order ds) = inr tt ↔ decodable ds.
Proof.
  rewrite Corrector_rewrite_all. split; [apply rewrite_all_returns|].
  intros H. by rewrite rewrite_all_decodable.
Qed.

Lemma Corrector_raises_TypeError ds x :
  fst (Corrector order ds) = inl x → x = TypeError.
Proof. rewrite Corrector_rewrite_all. apply rewrite_all_raises. Qed.

Lemma rewritten_all_concrete ds :
  Forall (λ e, ¬ ambiguous e) (rewritten order <$> ds).
Proof. apply Forall_fmap, Forall_true. intros e. apply rewritten_concrete. Qed.

Lemma rewritten_US_or_SS e bs :
  VR e = "US or SS" → value e = Bytes bs →
  rewritten order e
  = {| tag := tag e; VR := "US"; value := Int (Py.int_from_bytes bs order);
       description := description e |}.
Proof. intros Hvr Hv. unfold rewritten. by rewrite decide_True, Hv. Qed.

Lemma rewritten_OB_or_OW e :
  VR e = "OB or OW" →
  rewritten order e
  = {| tag := tag e; VR := "OW"; value := value e;
       description := description e |}.
Proof.
  intros Hvr. unfold rewritten.
  rewrite decide_False by (by rewrite Hvr). by rewrite decide_True.
Qed.

End Rewriting.

(** ** The script, block by block *)

Section Run.

Variable args : Args.
Variable w : World.

(** An error record passes whatever the level of the logger is. *)
Lemma log_ERROR m st :
  log ERROR m st
  = (inr tt, with_trace (trace st ++ [Emit (formatter ERROR m)]) st).
Proof. unfold log. by destruct (level st). Qed.

Lemma configure_logging_run :
  ∃ lvl st0, logged (with_level lvl initial) st0
             ∧ configure_logging args initial = (inr tt, st0).
Proof.
  unfold configure_logging.
  destruct (verbose args), (debug args); cbn.
  - exists DEBUG. eexists. split; [|reflexivity]. by eexists [_; _].
  - exists INFO. eexists. split; [|reflexivity]. by exists [].
  - exists DEBUG. eexists. split; [|reflexivity]. by eexists [_; _].
  - exists ERROR. eexists. split; [|reflexivity]. by exists [].
Qed.

Lemma read_input_run st :
  ∃ st1, logged st st1 ∧
    read_input args w st
    = match read_file w (dcmfile_in args) with
      | RaisesIOError =>
          (inl (SystemExit None), with_trace (trace st1 ++ [cannot_read args]) st1)
      | RaisesOther =>
          (inl (SystemExit None),
           with_trace (trace st1 ++ [may_not_be_DICOM args]) st1)
      | Parsed f => (inr f, st1)
      end.
Proof.
  unfold read_input, mbind, M_bind.
  destruct (log_logged DEBUG "Checking input files" st) as (st1 & Hlog & ->).
  exists st1. split; [done|].
  unfold try_except, open_and_read.
  destruct (read_file w (dcmfile_in args)); [| |done].
  - unfold mbind, M_bind. by rewrite log_ERROR.
  - unfold mbind, M_bind. by rewrite log_ERROR.
Qed.

Lemma transmit_run order st ds :
  dataset st = ds →
  ∃ st1, logged st st1 ∧
    transmit args w order st
    = match Corrector order ds with
      | (inl x, d) => (inl x, with_dataset d st1)
      | (inr _, d) =>
          match send_c_store w d with
          | Returns s =>
              (inr tt,
               with_trace (trace st1 ++ [SendCStore d; Release])
                 (with_status (Some s) (with_dataset d st1)))
          | Raises =>
              (inl SendError,
               with_trace (trace st1 ++ [SendCStore d]) (with_dataset d st1))
          end
      end.
Proof.
  intros <-. unfold transmit, mbind, M_bind.
  destruct (log_logged INFO ("Sending file: " +:+ dcmfile_in args) st)
    as (st1 & Hlog1 & ->).
  destruct (correct_ambiguous_VRs_Corrector order st1)
    as (st2 & Hlog2 & ->).
  rewrite (logged_dataset _ _ Hlog1).
  exists st2. split; [by eapply logged_trans|].
  destruct (Corrector order (dataset st)) as [[x|[]] d]; simpl; [done|].
  unfold assoc_send_c_store. simpl.
  destruct (send_c_store w d); [|done].
  unfold bind_status, event, with_trace, with_status, with_dataset. simpl.
  by rewrite <- app_assoc.
Qed.

(** The three ways through the script. *)

Lemma run_read_fails :
  read_file w (dcmfile_in args) ≠ RaisesOther →
  (∀ f, read_file w (dcmfile_in args) ≠ Parsed f) →
  ∃ lvl st1, logged (with_level lvl initial) st1 ∧
    run args w
    = (inl (SystemExit None), with_trace (trace st1 ++ [cannot_read args]) st1).
Proof.
  intros Hother Hparsed. unfold run, storescu, mbind, M_bind.
  destruct configure_logging_run as (lvl & st0 & Hlog0 & ->).
  destruct (read_input_run st0) as (st1 & Hlog1 & ->).
  exists lvl, st1. split; [by eapply logged_trans|].
  destruct (read_file w (dcmfile_in args)) as [| |f]; [done|done|].
  by destruct (Hparsed f).
Qed.

Lemma run_parse_fails :
  read_file w (dcmfile_in args) = RaisesOther →
  ∃ lvl st1, logged (with_level lvl initial) st1 ∧
    run args w
    = (inl (SystemExit None),
       with_trace (trace st1 ++ [may_not_be_DICOM args]) st1).
Proof.
  intros Hread. unfold run, storescu, mbind, M_bind.
  destruct configure_logging_run as (lvl & st0 & Hlog0 & ->).
  destruct (read_input_run st0) as (st1 & Hlog1 & ->).
  exists lvl, st1. split; [by eapply logged_trans|].
  by rewrite Hread.
Qed.

Lemma run_not_established f :
  read_file w (dcmfile_in args) = Parsed f →
  Established w (peer args) (port args) (called_aet args) = false →
  ∃ lvl st1, logged (with_level lvl initial) st1 ∧
    run args w
    = (inr tt,
       with_trace (trace st1 ++ [create_AE args; request_association args; Quit])
         (with_dataset (elements f) st1)).
Proof.
  intros Hread Hest. unfold run, storescu, mbind, M_bind.
  destruct configure_logging_run as (lvl & st0 & Hlog0 & ->).
  destruct (read_input_run st0) as (st1 & Hlog1 & ->).
  exists lvl, st1. split; [by eapply logged_trans|].
  rewrite Hread, Hest.
  unfold bind_dataset, event, with_trace, with_dataset. simpl.
  by rewrite <- !app_assoc.
Qed.

Lemma run_established f :
  read_file w (dcmfile_in args) = Parsed f →
  Established w (peer args) (port args) (called_aet args) = true →
  ∃ lvl st1 st2,
    logged (with_level lvl initial) st1 ∧
    logged (with_trace (trace st1 ++ [create_AE args; request_association args]) st1)
      st2 ∧
    run args w
    = match Corrector (byte_order (TransferSyntaxUID (file_meta f)))
              (elements f) with
      | (inl x, d) => (inl x, with_dataset d st2)
      | (inr _, d) =>
          match send_c_store w d with
          | Returns s =>
              (inr tt,
               with_trace (trace st2 ++ [SendCStore d; Release; Quit])
                 (with_status (Some s) (with_dataset d st2)))
          | Raises =>
              (inl SendError,
               with_trace (trace st2 ++ [SendCStore d]) (with_dataset d st2))
          end
      end.
Proof.
  intros Hread Hest.
  remember (Corrector (byte_order (TransferSyntaxUID (file_meta f)))
              (elements f)) as c eqn:Hc.
  unfold run, storescu, mbind, M_bind.
  destruct configure_logging_run as (lvl & st0 & Hlog0 & ->).
  destruct (read_input_run st0) as (st1 & Hlog1 & ->).
  rewrite Hread, Hest.
  unfold bind_dataset, event. simpl.
  match goal with
  | |- context [transmit args w ?o ?s] =>
      destruct (transmit_run o s (elements f) eq_refl) as (st2 & Hlog2 & ->)
  end.
  destruct Hlog2 as [lines ->].
  exists lvl, st1,
    (with_trace ((trace st1 ++ [create_AE args; request_association args])
                 ++ (Emit <$> lines)) st1).
  split; [by eapply logged_trans|]. split; [by exists lines|].
  rewrite <- Hc. destruct c as [[x|[]] d]; simpl.
  - unfold with_dataset, with_trace. simpl. by rewrite <- !app_assoc.
  - destruct (send_c_store w d); unfold with_dataset, with_trace, with_status;
      simpl; by rewrite <- !app_assoc.
Qed.

End Run.

(** ** Traces *)

Section Traces.

Lemma sends_calls t : List.filter is_send t = List.filter is_send (calls t).
Proof.
  unfold calls. induction t as [|ev t IH]; [done|].
  destruct ev; simpl; by rewrite ?IH.
Qed.

Lemma calls_after_configuration lvl st :
  logged (with_level lvl initial) st → calls (trace st) = [].
Proof. intros H. by rewrite (logged_calls _ _ H). Qed.

Lemma last_snoc_event (t : list Event) ev : last (t ++ [ev]) = Some ev.
Proof. apply last_snoc. Qed.

End Traces.

(** ** The returned status is not read *)

Section Status.

Variable args : Args.
Variables w w' : World.
Hypothesis Hsame : same_but_status_code w w'.

Lemma read_input_same st : read_input args w st = read_input args w' st.
Proof.
  destruct Hsame as (Hread & _).
  unfold read_input, try_except, open_and_read, mbind, M_bind.
  destruct (log DEBUG "Checking input files" st) as [[x|[]] st1]; [done|].
  by rewrite Hread.
Qed.

Lemma transmit_same order st :
  fst (transmit args w order st) = fst (transmit args w' order st) ∧
  same_but_status (snd (transmit args w order st))
    (snd (transmit args w' order st)).
Proof.
  destruct Hsame as (_ & _ & Hsend).
  unfold transmit, mbind, M_bind.
  destruct (log INFO ("Sending file: " +:+ dcmfile_in args) st)
    as [[x|[]] st1]; [done|].
  destruct (correct_ambiguous_VRs order st1) as [[x|[]] st2]; [done|].
  unfold assoc_send_c_store. specialize (Hsend (dataset st2)).
  destruct (send_c_store w (dataset st2)), (send_c_store w' (dataset st2));
    done.
Qed.

Lemma storescu_same :
  fst (run args w) = fst (run args w') ∧
  same_but_status (snd (run args w)) (snd (run args w')).
Proof.
  unfold run, storescu, mbind, M_bind.
  destruct (configure_logging args initial) as [[x|[]] st0]; [done|].
  rewrite read_input_same.
  destruct (read_input args w' st0) as [[x|f] st1]; [done|].
  unfold bind_dataset, event. cbn [fst snd].
  destruct Hsame as (_ & Hest & _). rewrite Hest.
  destruct (Established w' (peer args) (port args) (called_aet args));
    [|done].
  match goal with
  | |- context [transmit args w ?o ?s] =>
      destruct (transmit_same o s) as (Hfst & Hlvl & Htr & Hds);
      destruct (transmit args w o s) as [[x|[]] s1];
      destruct (transmit args w' o s) as [[x'|[]] s1']
  end; simpl in *; try done.
  unfold same_but_status. simpl. by rewrite Htr.
Qed.

End Status.

(** ** A pass over a data set without ambiguous VR *)

Section SecondPass.

Variable order : Py.byteorder.

Lemma correct_elem_concrete i e st :
  dataset st !! i = Some e → ¬ ambiguous e →
  correct_elem order i st = (inr tt, st).
Proof.
  unfold ambiguous. intros Hi He.
  unfold correct_elem, mbind, M_bind, get_elem. rewrite Hi.
  rewrite decide_False by tauto. simpl. rewrite Hi.
  rewrite decide_False by tauto. done.
Qed.

Lemma for_in_concrete st (positions : list nat) :
  Forall (λ e, ¬ ambiguous e) (dataset st) →
  Forall (λ i, i < length (dataset st)) positions →
  for_in positions (correct_elem order) st = (inr tt, st).
Proof.
  intros Hds. induction 1 as [|i positions Hi Hpos IH]; simpl; [done|].
  unfold mbind, M_bind.
  destruct (lookup_lt_is_Some_2 _ _ Hi) as [e He].
  rewrite (correct_elem_concrete i e st He); [done|].
  rewrite Forall_forall in Hds. apply Hds.
  by apply list_elem_of_lookup_2 in He.
Qed.

Lemma correct_ambiguous_VRs_concrete st :
  Forall (λ e, ¬ ambiguous e) (dataset st) →
  correct_ambiguous_VRs order st = (inr tt, st).
Proof.
  intros Hds. unfold correct_ambiguous_VRs. apply for_in_concrete; [done|].
  apply Forall_forall. intros i Hi. apply elem_of_seq in Hi. lia.
Qed.

(** The loop run twice in a row, as a statement of the script would. *)
Lemma correct_ambiguous_VRs_twice st :
  (correct_ambiguous_VRs order;; correct_ambiguous_VRs order) st
  = correct_ambiguous_VRs order st.
Proof.
  unfold mbind, M_bind.
  destruct (correct_ambiguous_VRs_run order st) as (st1 & Hlog & ->).
  destruct (rewrite_all order (dataset st)) as [[x|[]] d] eqn:Hall;
    simpl; [done|].
  apply correct_ambiguous_VRs_concrete. simpl.
  assert (Hdec : decodable (dataset st)).
  { apply (rewrite_all_returns order). by rewrite Hall. }
  rewrite (rewrite_all_decodable order _ Hdec) in Hall.
  injection Hall as <-. apply rewritten_all_concrete.
Qed.

End SecondPass.

Ltac decodable_by_cases :=
  unfold decodable;
  repeat (constructor; [ cbn; intros ?; first [ by eexists | done ] | ]);
  try constructor.

Lemma sample_decodable : decodable (elements Sample.ct).
Proof. decodable_by_cases. Qed.

(** * The claims *)

(** C1: every element whose VR is "US or SS" has, after the Corrector ran
    with the byte order resolved from the transfer syntax UID, the VR "US"
    and as value the unsigned integer that its original bytes stand for in
    that byte order; tag and description are those of the original. *)
Theorem US_or_SS_becomes_US
    (uid : string) (ds : list DataElement) (i : nat) (e : DataElement)
    (bs : list byte) :
  decodable ds →
  ds !! i = Some e →
  VR e = "US or SS" →
  value e = Bytes bs →
  ∃ ds',
    Corrector (byte_order uid) ds = (inr tt, ds') ∧
    ds' !! i = Some {| tag := tag e; VR := "US";
                       value := Int (unsigned_integer (byte_order uid) bs);
                       description := description e |} ∧
    (0 ≤ unsigned_integer (byte_order uid) bs)%Z.
Proof.
  intros Hds Hi Hvr Hv. exists (rewritten (byte_order uid) <$> ds).
  split; [by apply Corrector_decodable|]. split.
  - rewrite list_lookup_fmap, Hi. simpl.
    by rewrite (rewritten_US_or_SS _ e bs), int_from_bytes_unsigned.
  - rewrite <- int_from_bytes_unsigned. apply int_from_bytes_nonneg.
Qed.

Lemma US_or_SS_becomes_US_witness :
  decodable (elements Sample.ct) ∧
  elements Sample.ct !! 1 = Some Sample.pixel_value ∧
  VR Sample.pixel_value = "US or SS" ∧
  value Sample.pixel_value = Bytes [x00; x05] ∧
  ∃ ds',
    Corrector (byte_order "1.2.840.10008.1.2.2") (elements Sample.ct)
    = (inr tt, ds') ∧
    ds' !! 1
    = Some {| tag := tag Sample.pixel_value; VR := "US";
              value := Int (unsigned_integer
                              (byte_order "1.2.840.10008.1.2.2") [x00; x05]);
              description := description Sample.pixel_value |} ∧
    (0 ≤ unsigned_integer (byte_order "1.2.840.10008.1.2.2") [x00; x05])%Z.
Proof.
  split; [exact sample_decodable|].
  split; [reflexivity|]. split; [reflexivity|]. split; [reflexivity|].
  apply (US_or_SS_becomes_US "1.2.840.10008.1.2.2" (elements Sample.ct) 1
           Sample.pixel_value [x00; x05]);
    [exact sample_decodable | reflexivity | reflexivity | reflexivity].
Defined.

(** C2: the resolver maps the transfer syntax UID 1.2.840.10008.1.2 to
    little, 1.2.840.10008.1.2.1 to little, and every other UID string, such
    as 1.2.840.10008.1.2.2, to big. *)
Theorem byte_order_resolved :
  byte_order "1.2.840.10008.1.2" = Py.little ∧
  byte_order "1.2.840.10008.1.2.1" = Py.little ∧
  byte_order "1.2.840.10008.1.2.2" = Py.big ∧
  ∀ uid : string,
    uid ≠ "1.2.840.10008.1.2" → uid ≠ "1.2.840.10008.1.2.1" →
    byte_order uid = Py.big.
Proof.
  repeat split. intros uid H1 H2. unfold byte_order.
  rewrite bool_decide_eq_false_2; [done|].
  rewrite !elem_of_cons, elem_of_nil. tauto.
Qed.

Lemma byte_order_resolved_witness :
  "1.3.6.1.4" ≠ "1.2.840.10008.1.2" ∧
  "1.3.6.1.4" ≠ "1.2.840.10008.1.2.1" ∧
  byte_order "1.3.6.1.4" = Py.big.
Proof.
  split; [discriminate|]. split; [discriminate|].
  apply (proj2 (proj2 (proj2 byte_order_resolved))); discriminate.
Defined.

(** C3: every element whose VR is "OB or OW" has, after the Corrector ran,
    the VR "OW"; its value, tag and description are unchanged. *)
Theorem OB_or_OW_becomes_OW
    (order : Py.byteorder) (ds : list DataElement) (i : nat)
    (e : DataElement) :
  decodable ds →
  ds !! i = Some e →
  VR e = "OB or OW" →
  ∃ ds',
    Corrector order ds = (inr tt, ds') ∧
    ds' !! i = Some {| tag := tag e; VR := "OW"; value := value e;
                       description := description e |}.
Proof.
  intros Hds Hi Hvr. exists (rewritten order <$> ds).
  split; [by apply Corrector_decodable|].
  rewrite list_lookup_fmap, Hi. simpl. by rewrite rewritten_OB_or_OW.
Qed.

Lemma OB_or_OW_becomes_OW_witness :
  decodable (elements Sample.ct) ∧
  elements Sample.ct !! 2 = Some Sample.pixel_data ∧
  VR Sample.pixel_data = "OB or OW" ∧
  ∃ ds',
    Corrector Py.little (elements Sample.ct) = (inr tt, ds') ∧
    ds' !! 2 = Some {| tag := tag Sample.pixel_data; VR := "OW";
                       value := value Sample.pixel_data;
                       description := description Sample.pixel_data |}.
Proof.
  split; [exact sample_decodable|]. split; [reflexivity|].
  split; [reflexivity|].
  apply (OB_or_OW_becomes_OW Py.little (elements Sample.ct) 2
           Sample.pixel_data);
    [exact sample_decodable | reflexivity | reflexivity].
Defined.

(** C4: the Corrector is idempotent.  Run twice in a row, the loop ends
    in the same way and in the same state as run once; and on every data
    set as parsed the Corrector returns a data set on which a second pass
    returns that same data set: no ambiguous VR is left after the first
    pass, so the second pass touches nothing. *)
Theorem Corrector_idempotent (order : Py.byteorder) :
  (∀ st : State,
     (correct_ambiguous_VRs order;; correct_ambiguous_VRs order) st
     = correct_ambiguous_VRs order st) ∧
  (∀ ds : list DataElement,
     decodable ds →
     ∃ ds',
       Corrector order ds = (inr tt, ds') ∧
       Corrector order ds' = (inr tt, ds') ∧
       Forall (λ e, ¬ ambiguous e) ds').
Proof.
  split; [apply correct_ambiguous_VRs_twice|].
  intros ds Hds. exists (rewritten order <$> ds).
  split; [by apply Corrector_decodable|].
  split; [apply Corrector_concrete|]; apply rewritten_all_concrete.
Qed.

Lemma Corrector_idempotent_witness :
  decodable (elements Sample.ct) ∧
  ∃ ds',
    Corrector Py.little (elements Sample.ct) = (inr tt, ds') ∧
    Corrector Py.little ds' = (inr tt, ds') ∧
    Forall (λ e, ¬ ambiguous e) ds'.
Proof.
  split; [exact sample_decodable|].
  apply (proj2 (Corrector_idempotent Py.little) (elements Sample.ct)).
  exact sample_decodable.
Defined.

(** C5, as stated, fails: with the association established and
    [send_c_store] raising, the script stops at line 167, and neither
    [assoc.Release()] nor [ae.Quit()] is called. *)
Lemma teardown_skipped_when_send_raises :
  Established Sample.dropping (peer Sample.argv) (port Sample.argv)
    (called_aet Sample.argv) = true ∧
  fst (run Sample.argv Sample.dropping) = inl SendError ∧
  List.filter is_send (trace (snd (run Sample.argv Sample.dropping))) ≠ [] ∧
  List.filter is_release (trace (snd (run Sample.argv Sample.dropping))) = [] ∧
  List.filter is_quit (trace (snd (run Sample.argv Sample.dropping))) = [].
Proof. repeat split. vm_compute. discriminate. Qed.

(** C5, amended: once the association is established and the Corrector
    has returned the data set [d], a [send_c_store] that returns a status,
    whichever it is, is followed by [assoc.Release()] once and then by
    [ae.Quit()] once, and the script ends normally; a [send_c_store] that
    raises ends the script with that exception, and neither is called. *)
Theorem teardown_follows_returning_send
    (args : Args) (w : World) (f : Dataset) (d : list DataElement) :
  read_file w (dcmfile_in args) = Parsed f →
  Established w (peer args) (port args) (called_aet args) = true →
  Corrector (byte_order (TransferSyntaxUID (file_meta f))) (elements f)
  = (inr tt, d) →
  match send_c_store w d with
  | Returns s =>
      fst (run args w) = inr tt ∧
      calls (trace (snd (run args w)))
      = [create_AE args; request_association args; SendCStore d;
         Release; Quit]
  | Raises =>
      fst (run args w) = inl SendError ∧
      calls (trace (snd (run args w)))
      = [create_AE args; request_association args; SendCStore d]
  end.
Proof.
  intros Hread Hest Hcorr.
  destruct (run_established args w f Hread Hest)
    as (lvl & st1 & st2 & H1 & H2 & ->).
  rewrite Hcorr.
  destruct (send_c_store w d); (split; [done|]); simpl;
    rewrite calls_app, (logged_calls _ _ H2); simpl;
    by rewrite calls_app, (calls_after_configuration lvl st1 H1).
Qed.

Lemma teardown_follows_returning_send_witness :
  read_file (Sample.accepting (Warning 0xB000)) (dcmfile_in Sample.argv)
  = Parsed Sample.ct ∧
  Established (Sample.accepting (Warning 0xB000)) (peer Sample.argv)
    (port Sample.argv) (called_aet Sample.argv) = true ∧
  Corrector (byte_order (TransferSyntaxUID (file_meta Sample.ct)))
    (elements Sample.ct)
  = (inr tt, rewritten Py.little <$> elements Sample.ct) ∧
  fst (run Sample.argv (Sample.accepting (Warning 0xB000))) = inr tt ∧
  calls (trace (snd (run Sample.argv (Sample.accepting (Warning 0xB000)))))
  = [create_AE Sample.argv; request_association Sample.argv;
     SendCStore (rewritten Py.little <$> elements Sample.ct); Release; Quit].
Proof.
  split; [reflexivity|]. split; [reflexivity|]. split; [reflexivity|].
  apply (teardown_follows_returning_send Sample.argv
           (Sample.accepting (Warning 0xB000)) Sample.ct
           (rewritten Py.little <$> elements Sample.ct));
    reflexivity.
Defined.

(** C6, as stated, fails: a US-or-SS element whose value is three bytes
    long is corrected like any other; nothing is raised. *)
Lemma wrong_length_accepted :
  VR Sample.odd_length = "US or SS" ∧
  value Sample.odd_length = Bytes [x01; x02; x03] ∧
  Corrector Py.little [Sample.odd_length]
  = (inr tt, [{| tag := tag Sample.odd_length; VR := "US";
                 value := Int 197121;
                 description := description Sample.odd_length |}]).
Proof. repeat split. Qed.

(** C6, amended: a US-or-SS element whose value is a byte string of a
    length other than two does not make the Corrector fail: the Corrector
    returns, and the element has the VR "US" and as value the integer
    decoded from all of its bytes. *)
Theorem wrong_length_decoded
    (order : Py.byteorder) (ds : list DataElement) (i : nat)
    (e : DataElement) (bs : list byte) :
  decodable ds →
  ds !! i = Some e →
  VR e = "US or SS" →
  value e = Bytes bs →
  length bs ≠ 2 →
  ∃ ds',
    Corrector order ds = (inr tt, ds') ∧
    ds' !! i = Some {| tag := tag e; VR := "US";
                       value := Int (Py.int_from_bytes bs order);
                       description := description e |}.
Proof.
  intros Hds Hi Hvr Hv _. exists (rewritten order <$> ds).
  split; [by apply Corrector_decodable|].
  rewrite list_lookup_fmap, Hi. simpl. by rewrite (rewritten_US_or_SS _ e bs).
Qed.

Lemma wrong_length_decoded_witness :
  decodable [Sample.patient_name; Sample.odd_length] ∧
  [Sample.patient_name; Sample.odd_length] !! 1 = Some Sample.odd_length ∧
  VR Sample.odd_length = "US or SS" ∧
  value Sample.odd_length = Bytes [x01; x02; x03] ∧
  length [x01; x02; x03] ≠ 2 ∧
  ∃ ds',
    Corrector Py.big [Sample.patient_name; Sample.odd_length] = (inr tt, ds') ∧
    ds' !! 1
    = Some {| tag := tag Sample.odd_length; VR := "US";
              value := Int (Py.int_from_bytes [x01; x02; x03] Py.big);
              description := description Sample.odd_length |}.
Proof.
  split; [decodable_by_cases|]. split; [reflexivity|].
  split; [reflexivity|]. split; [reflexivity|]. split; [simpl; lia|].
  apply (wrong_length_decoded Py.big [Sample.patient_name; Sample.odd_length]
           1 Sample.odd_length [x01; x02; x03]);
    [decodable_by_cases | reflexivity | reflexivity | reflexivity
    | simpl; lia].
Defined.

(** C7, as stated, fails: for an unreadable input file the script calls
    [sys.exit()] without an argument, and the exit status is 0. *)
Lemma unreadable_input_exit_status_zero :
  read_file Sample.unreadable (dcmfile_in Sample.argv) = RaisesIOError ∧
  exit_status (run Sample.argv Sample.unreadable) = 0%Z.
Proof. split; reflexivity. Qed.

(** C7, amended: for an input file that cannot be read or parsed, the last
    thing the run does is print an error line that names the file, then it
    exits through [sys.exit()], with exit status 0, and no call into the
    network library has been made. *)
Theorem unreadable_input_stops_before_network (args : Args) (w : World) :
  (∀ f, read_file w (dcmfile_in args) ≠ Parsed f) →
  last (trace (snd (run args w)))
  = Some (match read_file w (dcmfile_in args) with
          | RaisesIOError => cannot_read args
          | _ => may_not_be_DICOM args
          end) ∧
  fst (run args w) = inl (SystemExit None) ∧
  exit_status (run args w) = 0%Z ∧
  calls (trace (snd (run args w))) = [].
Proof.
  intros Hparsed. destruct (read_file w (dcmfile_in args)) as [| |f] eqn:Hread.
  - destruct (run_read_fails args w) as (lvl & st1 & H1 & Hrun).
    { by rewrite Hread. }
    { intros f. by rewrite Hread. }
    rewrite Hrun. unfold exit_status. simpl.
    rewrite last_snoc_event, calls_app, (calls_after_configuration lvl st1 H1).
    done.
  - destruct (run_parse_fails args w Hread) as (lvl & st1 & H1 & Hrun).
    rewrite Hrun. unfold exit_status. simpl.
    rewrite last_snoc_event, calls_app, (calls_after_configuration lvl st1 H1).
    done.
  - by destruct (Hparsed f).
Qed.

Lemma unreadable_input_stops_before_network_witness :
  (∀ f, read_file Sample.unreadable (dcmfile_in Sample.argv) ≠ Parsed f) ∧
  last (trace (snd (run Sample.argv Sample.unreadable)))
  = Some (Emit "E: Cannot read input file ct.dcm") ∧
  fst (run Sample.argv Sample.unreadable) = inl (SystemExit None) ∧
  exit_status (run Sample.argv Sample.unreadable) = 0%Z ∧
  calls (trace (snd (run Sample.argv Sample.unreadable))) = [].
Proof.
  split; [intros f; discriminate|].
  apply (unreadable_input_stops_before_network Sample.argv Sample.unreadable).
  intros f. discriminate.
Defined.

(** C8, as stated, fails: under little-endian order the bytes 0x00 0x05
    stand for 0x0500, so the corrected value is 1280 and not 5. *)
Lemma bytes_00_05_little_is_not_5 :
  VR Sample.pixel_value = "US or SS" ∧
  value Sample.pixel_value = Bytes [x00; x05] ∧
  Corrector Py.little [Sample.pixel_value]
  = (inr tt, [{| tag := tag Sample.pixel_value; VR := "US";
                 value := Int 1280;
                 description := description Sample.pixel_value |}]) ∧
  Int 1280 ≠ Int 5.
Proof. repeat split. discriminate. Qed.

(** C8, amended: for an element with VR "US or SS" that holds the two
    bytes 0x00 0x05, the Corrector under little-endian order produces the
    VR "US" with the integer value 1280. *)
Theorem bytes_00_05_little_is_1280 (t : Tag) (d : string) :
  Corrector Py.little
    [{| tag := t; VR := "US or SS"; value := Bytes [x00; x05];
        description := d |}]
  = (inr tt, [{| tag := t; VR := "US"; value := Int 1280;
                 description := d |}]).
Proof.
  rewrite Corrector_decodable by decodable_by_cases.
  simpl. by rewrite (rewritten_US_or_SS _ _ [x00; x05]).
Qed.

(** The value 5 is what the same two bytes stand for in big-endian order,
    and what the bytes 0x05 0x00 stand for in little-endian order. *)
Example bytes_that_give_5 :
  Py.int_from_bytes [x00; x05] Py.big = 5%Z ∧
  Py.int_from_bytes [x05; x00] Py.little = 5%Z.
Proof. split; reflexivity. Qed.

(** C9: when the association is not established, [send_c_store] is never
    called, and the data set is left as it was parsed: the Corrector has
    not run. *)
Theorem no_send_unless_established (args : Args) (w : World) :
  Established w (peer args) (port args) (called_aet args) = false →
  List.filter is_send (trace (snd (run args w))) = [] ∧
  ∀ f, read_file w (dcmfile_in args) = Parsed f →
       dataset (snd (run args w)) = elements f.
Proof.
  intros Hest. rewrite sends_calls.
  destruct (read_file w (dcmfile_in args)) as [| |f] eqn:Hread.
  - destruct (run_read_fails args w) as (lvl & st1 & H1 & ->).
    { by rewrite Hread. }
    { intros f. by rewrite Hread. }
    simpl. rewrite calls_app, (calls_after_configuration lvl st1 H1).
    by split.
  - destruct (run_parse_fails args w Hread) as (lvl & st1 & H1 & ->).
    simpl. rewrite calls_app, (calls_after_configuration lvl st1 H1).
    by split.
  - destruct (run_not_established args w f Hread Hest)
      as (lvl & st1 & H1 & ->).
    simpl. rewrite calls_app, (calls_after_configuration lvl st1 H1).
    split; [done|]. by intros f' [= ->].
Qed.

Lemma no_send_unless_established_witness :
  Established Sample.rejecting (peer Sample.argv) (port Sample.argv)
    (called_aet Sample.argv) = false ∧
  List.filter is_send (trace (snd (run Sample.argv Sample.rejecting))) = [] ∧
  ∀ f, read_file Sample.rejecting (dcmfile_in Sample.argv) = Parsed f →
       dataset (snd (run Sample.argv Sample.rejecting)) = elements f.
Proof.
  split; [reflexivity|].
  apply (no_send_unless_established Sample.argv Sample.rejecting).
  reflexivity.
Defined.

(** C10: the status that [send_c_store] returns has no influence on what
    the run does: two runs in worlds that differ at most in that status
    code end the same way, with the same trace (the same log lines, the
    same calls in the same order, [assoc.Release()] and [ae.Quit()] among
    them), the same data set and the same exit status. *)
Theorem status_has_no_influence (args : Args) (w w' : World) :
  same_but_status_code w w' →
  fst (run args w) = fst (run args w') ∧
  trace (snd (run args w)) = trace (snd (run args w')) ∧
  level (snd (run args w)) = level (snd (run args w')) ∧
  dataset (snd (run args w)) = dataset (snd (run args w')) ∧
  exit_status (run args w) = exit_status (run args w').
Proof.
  intros Hsame.
  destruct (storescu_same args w w' Hsame) as (Hfst & Hlvl & Htr & Hds).
  repeat split; try done. unfold exit_status. by rewrite Hfst.
Qed.

Lemma status_has_no_influence_witness :
  same_but_status_code (Sample.accepting Success)
    (Sample.accepting (Failure 0xC000)) ∧
  fst (run Sample.argv (Sample.accepting Success))
  = fst (run Sample.argv (Sample.accepting (Failure 0xC000))) ∧
  trace (snd (run Sample.argv (Sample.accepting Success)))
  = trace (snd (run Sample.argv (Sample.accepting (Failure 0xC000)))) ∧
  level (snd (run Sample.argv (Sample.accepting Success)))
  = level (snd (run Sample.argv (Sample.accepting (Failure 0xC000)))) ∧
  dataset (snd (run Sample.argv (Sample.accepting Success)))
  = dataset (snd (run Sample.argv (Sample.accepting (Failure 0xC000)))) ∧
  exit_status (run Sample.argv (Sample.accepting Success))
  = exit_status (run Sample.argv (Sample.accepting (Failure 0xC000))).
Proof.
  assert (H : same_but_status_code (Sample.accepting Success)
                (Sample.accepting (Failure 0xC000)))
    by (repeat split).
  split; [exact H|].
  exact (status_has_no_influence Sample.argv (Sample.accepting Success)
           (Sample.accepting (Failure 0xC000)) H).
Defined.

(** The two runs of the witness do differ: in the [status] variable. *)
Example status_is_bound :
  status (snd (run Sample.argv (Sample.accepting Success))) = Some Success ∧
  status (snd (run Sample.argv (Sample.accepting (Failure 0xC000))))
  = Some (Failure 0xC000).
Proof. split; reflexivity. Qed.


(** * Further properties of the script *)

(** ** The loop with its log lines *)

Section Exact.

Variable order : Py.byteorder.

Lemma log_exact l m st :
  log l m st = (inr tt, with_trace (trace st ++ emitted (level st) l m) st).
Proof.
  unfold log, emitted, event.
  destruct (levelno (level st) <=? levelno l)%Z; [done|].
  destruct st. unfold with_trace. simpl. by rewrite app_nil_r.
Qed.

Lemma correct_elem_exact pre e suf st :
  dataset st = pre ++ e :: suf →
  correct_elem order (length pre) st
  = (if raised e then inl TypeError else inr tt,
     with_trace (trace st ++ elem_lines (level st) e)
       (with_dataset (pre ++ rewritten order e :: suf) st)).
Proof.
  intros H.
  unfold correct_elem, mbind, M_bind, rewritten, raised, elem_lines, elem_name.
  rewrite (get_elem_middle pre e suf st H).
  destruct (decide (VR e = "US or SS")) as [Hus|Hus].
  - rewrite log_exact.
    rewrite (set_VR_middle pre e suf "US") by done.
    rewrite (get_elem_middle pre (put_VR "US" e) suf) by done.
    cbn [put_VR value].
    destruct (value e) as [bs|n]; cbn [int_from_bytes raise]; [|done].
    unfold mret, M_ret.
    rewrite (set_value_middle pre (put_VR "US" e) suf) by done.
    rewrite (get_elem_middle pre (put_value _ (put_VR "US" e)) suf) by done.
    by rewrite decide_False.
  - simpl. rewrite (get_elem_middle pre e suf st H).
    destruct (decide (VR e = "OB or OW")) as [Hob|Hob].
    + rewrite log_exact. by rewrite (set_VR_middle pre e suf "OW").
    + rewrite <- H, with_dataset_id. destruct st. unfold with_trace. simpl.
      by rewrite app_nil_r.
Qed.

Lemma for_in_exact suf : ∀ pre st,
  dataset st = pre ++ suf →
  for_in (seq (length pre) (length suf)) (correct_elem order) st
  = (fst (rewrite_all order suf),
     with_trace (trace st ++ loop_lines (level st) suf)
       (with_dataset (pre ++ snd (rewrite_all order suf)) st)).
Proof.
  induction suf as [|e suf IH]; intros pre st H; simpl.
  - rewrite <- H, with_dataset_id. destruct st. unfold with_trace. simpl.
    by rewrite app_nil_r.
  - unfold mbind, M_bind. rewrite (correct_elem_exact pre e suf st H).
    destruct (raised e); [by rewrite app_nil_r|].
    replace (S (length pre)) with (length (pre ++ [rewritten order e]))
      by (rewrite length_app; simpl; lia).
    rewrite IH by (simpl; by rewrite <- app_assoc).
    unfold with_trace, with_dataset. simpl. by rewrite <- !app_assoc.
Qed.

Lemma correct_ambiguous_VRs_exact st :
  correct_ambiguous_VRs order st
  = (fst (Corrector order (dataset st)),
     with_trace (trace st ++ loop_lines (level st) (dataset st))
       (with_dataset (snd (Corrector order (dataset st))) st)).
Proof.
  rewrite Corrector_rewrite_all. unfold correct_ambiguous_VRs.
  exact (for_in_exact (dataset st) [] st eq_refl).
Qed.

End Exact.

(** ** The run is the table *)

Section Table.

Variable args : Args.
Variable w : World.

Lemma configure_logging_exact :
  configure_logging args initial
  = (inr tt,
     {| level := configured_level args;
        trace := emitted (configured_level args) DEBUG
                   ("$storescu.py v" +:+ "0.1.0" +:+ " " +:+ "2016-02-10"
                    +:+ " $")
                 ++ emitted (configured_level args) DEBUG "";
        dataset := []; status := None |}).
Proof.
  unfold configure_logging, configured_level.
  by destruct (verbose args), (debug args).
Qed.

Lemma read_input_exact st :
  read_input args w st
  = let st1 := with_trace
                 (trace st ++ emitted (level st) DEBUG "Checking input files")
                 st in
    match read_file w (dcmfile_in args) with
    | RaisesIOError =>
        (inl (SystemExit None),
         with_trace (trace st1 ++ [cannot_read args]) st1)
    | RaisesOther =>
        (inl (SystemExit None),
         with_trace (trace st1 ++ [may_not_be_DICOM args]) st1)
    | Parsed f => (inr f, st1)
    end.
Proof.
  unfold read_input, mbind, M_bind. rewrite log_exact.
  unfold try_except, open_and_read.
  destruct (read_file w (dcmfile_in args)); [| |done];
    unfold mbind, M_bind; by rewrite log_ERROR.
Qed.

Lemma transmit_exact order st ds :
  dataset st = ds →
  transmit args w order st
  = let c := Corrector order ds in
    let t := trace st
             ++ emitted (level st) INFO ("Sending file: " +:+ dcmfile_in args)
             ++ loop_lines (level st) ds in
    match fst c with
    | inl x => (inl x, with_trace t (with_dataset (snd c) st))
    | inr _ =>
        match send_c_store w (snd c) with
        | Returns s =>
            (inr tt,
             with_trace (t ++ [SendCStore (snd c); Release])
               (with_status (Some s) (with_dataset (snd c) st)))
        | Raises =>
            (inl SendError,
             with_trace (t ++ [SendCStore (snd c)]) (with_dataset (snd c) st))
        end
    end.
Proof.
  intros <-. unfold transmit, mbind, M_bind.
  rewrite log_exact, correct_ambiguous_VRs_exact.
  cbn [dataset level trace with_trace with_dataset].
  destruct (Corrector order (dataset st)) as [[x|[]] d];
    cbn [fst snd]; unfold with_trace, with_dataset; cbn [level trace dataset status].
  - by rewrite <- app_assoc.
  - unfold assoc_send_c_store. cbn [dataset trace with_trace].
    destruct (send_c_store w d);
      unfold bind_status, event, with_trace, with_status, with_dataset;
      cbn [level trace dataset status]; by rewrite <- !app_assoc.
Qed.

Lemma run_expected : run args w = expected args w.
Proof.
  unfold run, storescu, expected, final, banner, mbind, M_bind.
  rewrite configure_logging_exact, read_input_exact.
  cbn [level trace dataset status with_trace].
  destruct (read_file w (dcmfile_in args)) as [| |f].
  - by rewrite <- !app_assoc.
  - by rewrite <- !app_assoc.
  - unfold bind_dataset, event.
    cbn [level trace dataset status with_trace with_dataset].
    destruct (Established w (peer args) (port args) (called_aet args)).
    + rewrite (transmit_exact _ _ (elements f)) by done.
      cbn [level trace dataset status with_trace with_dataset].
      destruct (Corrector (byte_order (TransferSyntaxUID (file_meta f)))
                  (elements f)) as [[x|[]] d]; cbn [fst snd].
      * unfold create_AE, request_association, with_trace, with_dataset.
        cbn [level trace dataset status]. by rewrite <- !app_assoc.
      * destruct (send_c_store w d);
          unfold create_AE, request_association, with_trace, with_dataset,
            with_status;
          cbn [level trace dataset status]; by rewrite <- !app_assoc.
    + unfold mret, M_ret, create_AE, request_association, with_trace,
        with_dataset.
      cbn [level trace dataset status]. by rewrite <- !app_assoc.
Qed.

End Table.

(** ** More on the primitives *)

Section Bytes.

Lemma big_is_little_of_reversed bs acc :
  foldl (λ a b, 256 * a + Z.of_N (Byte.to_N b))%Z acc bs
  = foldr (λ b a, Z.of_N (Byte.to_N b) + 256 * a)%Z acc (rev bs).
Proof.
  revert acc. induction bs as [|b bs IH]; intros acc; simpl; [done|].
  rewrite IH, foldr_app. simpl. f_equal. lia.
Qed.

Lemma big_as_little bs :
  Py.int_from_bytes bs Py.big = Py.int_from_bytes (rev bs) Py.little.
Proof. apply big_is_little_of_reversed. Qed.

Lemma byte_bounds b : (0 ≤ Z.of_N (Byte.to_N b) ≤ 255)%Z.
Proof. pose proof (Byte.to_N_bounded b). lia. Qed.

Lemma byte_to_N_inj b b' : Byte.to_N b = Byte.to_N b' → b = b'.
Proof.
  intros H. pose proof (Byte.of_to_N b) as Hb. rewrite H, Byte.of_to_N in Hb.
  by injection Hb.
Qed.

Lemma little_bound bs :
  (0 ≤ Py.int_from_bytes bs Py.little < 256 ^ Z.of_nat (length bs))%Z.
Proof.
  induction bs as [|b bs IH]; [simpl; lia|].
  cbn [length]. rewrite Nat2Z.inj_succ, Z.pow_succ_r by lia.
  pose proof (byte_bounds b). simpl in *. lia.
Qed.

Lemma little_inj bs : ∀ bs',
  length bs = length bs' →
  Py.int_from_bytes bs Py.little = Py.int_from_bytes bs' Py.little →
  bs = bs'.
Proof.
  induction bs as [|b bs IH]; intros [|b' bs'] Hlen Hval; try done.
  simpl in *. pose proof (byte_bounds b). pose proof (byte_bounds b').
  assert (Hb : Byte.to_N b = Byte.to_N b') by lia.
  f_equal; [by apply byte_to_N_inj|].
  apply IH; [lia|]. simpl. lia.
Qed.

End Bytes.

Section Names.

Lemma concat_empty_cons x l : String.concat "" (x :: l) = x +:+ String.concat "" l.
Proof.
  destruct l as [|y l]; simpl; [|done].
  induction x as [|c x IH]; [done|].
  change (String c x +:+ "") with (String c (x +:+ "")). by f_equal.
Qed.

Lemma split_not_nil sep s : Py.split sep s ≠ [].
Proof.
  destruct s as [|c s]; simpl; [done|].
  destruct (Ascii.eqb c sep); [done|]. by destruct (Py.split sep s).
Qed.

End Names.

(** ** More on the Corrector *)

Section Frame.

Variable order : Py.byteorder.

Lemma rewritten_tag e : tag (rewritten order e) = tag e.
Proof.
  unfold rewritten. repeat case_decide; try done. by destruct (value e).
Qed.

Lemma rewritten_description e :
  description (rewritten order e) = description e.
Proof.
  unfold rewritten. repeat case_decide; try done. by destruct (value e).
Qed.

Lemma rewrite_all_fmap {A} (g : DataElement → A) ds :
  (∀ e, g (rewritten order e) = g e) →
  g <$> snd (rewrite_all order ds) = g <$> ds.
Proof.
  intros Hg. induction ds as [|e ds IH]; [done|]. cbn [rewrite_all].
  destruct (raised e); cbn [snd]; rewrite !fmap_cons, Hg; [done|].
  by rewrite IH.
Qed.

Lemma rewrite_all_lookup_concrete ds : ∀ i e,
  ds !! i = Some e → ¬ ambiguous e →
  snd (rewrite_all order ds) !! i = Some e.
Proof.
  induction ds as [|e0 ds IH]; intros i e Hi He; [done|].
  simpl. destruct i as [|i]; simpl in Hi.
  - injection Hi as ->. rewrite (raised_concrete e He). simpl.
    by rewrite rewritten_id.
  - destruct (raised e0); simpl; [done|]. by apply IH.
Qed.

Lemma rewrite_all_stops pre e suf :
  decodable pre → raised e = true →
  rewrite_all order (pre ++ e :: suf)
  = (inl TypeError, snd (rewrite_all order pre) ++ rewritten order e :: suf).
Proof.
  intros Hpre He. induction Hpre as [|e0 pre He0 Hpre IH]; simpl.
  - by rewrite He.
  - apply raised_false in He0. by rewrite He0, IH.
Qed.

End Frame.

(** ** Calls and printed lines of the table *)

Section Pieces.

Lemma calls_emitted lvl l m : calls (emitted lvl l m) = [].
Proof. unfold emitted. by destruct (levelno lvl <=? levelno l)%Z. Qed.

Lemma calls_elem_lines lvl e : calls (elem_lines lvl e) = [].
Proof. unfold elem_lines. repeat case_decide; by rewrite ?calls_emitted. Qed.

Lemma calls_loop_lines lvl ds : calls (loop_lines lvl ds) = [].
Proof.
  induction ds as [|e ds IH]; [done|]. simpl.
  rewrite calls_app, calls_elem_lines. by destruct (raised e).
Qed.

Lemma calls_banner args : calls (banner args) = [].
Proof. unfold banner. by rewrite !calls_app, !calls_emitted. Qed.

Lemma printed_app t1 t2 : printed (t1 ++ t2) = printed t1 ++ printed t2.
Proof. apply List.filter_app. Qed.

Lemma printed_emitted lvl l m : printed (emitted lvl l m) = emitted lvl l m.
Proof. unfold emitted. by destruct (levelno lvl <=? levelno l)%Z. Qed.

Lemma printed_elem_lines lvl e : printed (elem_lines lvl e) = elem_lines lvl e.
Proof.
  unfold elem_lines. repeat case_decide; by rewrite ?printed_emitted.
Qed.

Lemma printed_loop_lines lvl ds : printed (loop_lines lvl ds) = loop_lines lvl ds.
Proof.
  induction ds as [|e ds IH]; [done|]. simpl.
  rewrite printed_app, printed_elem_lines. destruct (raised e); [done|].
  by rewrite IH.
Qed.


Lemma loop_lines_decodable lvl ds :
  decodable ds → loop_lines lvl ds = flat_map (elem_lines lvl) ds.
Proof.
  induction 1 as [|e ds He Hds IH]; [done|]. simpl.
  apply raised_false in He. by rewrite He, IH.
Qed.

Lemma elem_lines_count e :
  length (elem_lines DEBUG e)
  = if has_VR "US or SS" e || has_VR "OB or OW" e then 1 else 0.
Proof.
  unfold elem_lines, has_VR.
  destruct (decide (VR e = "US or SS")) as [H1|H1].
  - by rewrite (bool_decide_eq_true_2 _ H1).
  - rewrite (bool_decide_eq_false_2 _ H1).
    destruct (decide (VR e = "OB or OW")) as [H2|H2].
    + by rewrite (bool_decide_eq_true_2 _ H2).
    + by rewrite (bool_decide_eq_false_2 _ H2).
Qed.

End Pieces.

Create Rewrite HintDb pieces.

#[local] Hint Rewrite calls_app calls_emitted calls_loop_lines calls_banner
  printed_app printed_emitted printed_loop_lines : pieces.

(** ** Properties of the Corrector *)

(** X1: the Corrector never adds, removes or reorders elements and never
    changes a tag or a description, whether it returns or raises. *)
Theorem Corrector_keeps_tags_and_descriptions
    (order : Py.byteorder) (ds : list DataElement) :
  tag <$> snd (Corrector order ds) = tag <$> ds ∧
  description <$> snd (Corrector order ds) = description <$> ds ∧
  length (snd (Corrector order ds)) = length ds.
Proof.
  rewrite Corrector_rewrite_all.
  assert (Htag : tag <$> snd (rewrite_all order ds) = tag <$> ds)
    by apply rewrite_all_fmap, rewritten_tag.
  split; [done|]. split; [apply rewrite_all_fmap, rewritten_description|].
  by rewrite <- (length_fmap tag), Htag, length_fmap.
Qed.

(** X2: an element whose VR is neither "US or SS" nor "OB or OW" is left
    exactly as it is, wherever it stands in the data set and whether the
    Corrector returns or raises on another element. *)
Theorem Corrector_leaves_concrete_elements
    (order : Py.byteorder) (ds : list DataElement) (i : nat)
    (e : DataElement) :
  ds !! i = Some e →
  ¬ ambiguous e →
  snd (Corrector order ds) !! i = Some e.
Proof.
  intros Hi He. rewrite Corrector_rewrite_all.
  by apply rewrite_all_lookup_concrete.
Qed.

Lemma Corrector_leaves_concrete_elements_witness :
  elements Edge.series !! 0 = Some Sample.patient_name ∧
  ¬ ambiguous Sample.patient_name ∧
  fst (Corrector Py.little (elements Edge.series)) = inl TypeError ∧
  snd (Corrector Py.little (elements Edge.series)) !! 0
  = Some Sample.patient_name.
Proof.
  assert (H : ¬ ambiguous Sample.patient_name) by (by intros [|]).
  split; [reflexivity|]. split; [exact H|]. split; [reflexivity|].
  exact (Corrector_leaves_concrete_elements Py.little (elements Edge.series)
           0 Sample.patient_name eq_refl H).
Defined.

(** X3: when a US-or-SS element holds an integer instead of a byte string,
    the Corrector raises TypeError at that element: the elements before it
    are corrected, the element itself has its VR already set to "US" and
    its value unchanged, and the elements after it are untouched. *)
Theorem Corrector_stops_at_undecodable
    (order : Py.byteorder) (pre suf : list DataElement) (e : DataElement)
    (n : Z) :
  decodable pre →
  VR e = "US or SS" →
  value e = Int n →
  Corrector order (pre ++ e :: suf)
  = (inl TypeError, snd (Corrector order pre) ++ put_VR "US" e :: suf).
Proof.
  intros Hpre Hvr Hv. rewrite !Corrector_rewrite_all.
  rewrite rewrite_all_stops; [|done|].
  - unfold rewritten. by rewrite decide_True, Hv.
  - unfold raised. by rewrite decide_True, Hv.
Qed.

Lemma Corrector_stops_at_undecodable_witness :
  decodable [Sample.patient_name; Sample.pixel_value] ∧
  VR Edge.decoded = "US or SS" ∧
  value Edge.decoded = Int 7 ∧
  Corrector Py.big
    ([Sample.patient_name; Sample.pixel_value]
     ++ Edge.decoded :: [Sample.pixel_data])
  = (inl TypeError,
     snd (Corrector Py.big [Sample.patient_name; Sample.pixel_value])
     ++ put_VR "US" Edge.decoded :: [Sample.pixel_data]).
Proof.
  split; [decodable_by_cases|]. split; [reflexivity|]. split; [reflexivity|].
  apply (Corrector_stops_at_undecodable Py.big
           [Sample.patient_name; Sample.pixel_value] [Sample.pixel_data]
           Edge.decoded 7);
    [decodable_by_cases | reflexivity | reflexivity].
Defined.

(** X4: the byte order matters for US-or-SS elements only: on a data set
    without such an element the Corrector does the same under both byte
    orders. *)
Theorem byte_order_matters_for_US_or_SS_only
    (order order' : Py.byteorder) (ds : list DataElement) :
  Forall (λ e, VR e ≠ "US or SS") ds →
  Corrector order ds = Corrector order' ds.
Proof.
  intros Hds. rewrite !Corrector_rewrite_all.
  induction Hds as [|e ds He Hds IH]; [done|]. simpl. rewrite IH.
  unfold rewritten. by destruct (decide (VR e = "US or SS")).
Qed.

Lemma byte_order_matters_for_US_or_SS_only_witness :
  Forall (λ e, VR e ≠ "US or SS") [Sample.patient_name; Sample.pixel_data] ∧
  Corrector Py.little [Sample.patient_name; Sample.pixel_data]
  = Corrector Py.big [Sample.patient_name; Sample.pixel_data].
Proof.
  assert (H : Forall (λ e, VR e ≠ "US or SS")
                [Sample.patient_name; Sample.pixel_data])
    by (repeat constructor; discriminate).
  split; [exact H|].
  exact (byte_order_matters_for_US_or_SS_only Py.little Py.big
           [Sample.patient_name; Sample.pixel_data] H).
Defined.

(** ** Properties of the decoding *)

(** X5: the decoded integer is never negative and is below 256 to the
    power of the number of bytes: a value of two bytes is below 65536, the
    empty byte string decodes to 0. *)
Theorem int_from_bytes_bound (order : Py.byteorder) (bs : list byte) :
  (0 ≤ Py.int_from_bytes bs order < 256 ^ Z.of_nat (length bs))%Z.
Proof.
  destruct order; [apply little_bound|].
  unfold Py.int_from_bytes. rewrite big_is_little_of_reversed.
  rewrite <- (length_rev bs). apply little_bound.
Qed.

(** X6: decoding a byte string in big-endian order is decoding the
    reversed byte string in little-endian order. *)
Theorem int_from_bytes_big_is_little_reversed (bs : list byte) :
  Py.int_from_bytes bs Py.big = Py.int_from_bytes (rev bs) Py.little.
Proof. apply big_as_little. Qed.

(** X7: decoding loses nothing: two byte strings of the same length that
    decode to the same integer in the same byte order are the same. *)
Theorem int_from_bytes_injective
    (order : Py.byteorder) (bs bs' : list byte) :
  length bs = length bs' →
  Py.int_from_bytes bs order = Py.int_from_bytes bs' order →
  bs = bs'.
Proof.
  intros Hlen Hval. destruct order; [by apply little_inj|].
  rewrite !big_as_little in Hval.
  apply little_inj in Hval; [|by rewrite !length_rev].
  by rewrite <- (rev_involutive bs), Hval, rev_involutive.
Qed.

Lemma int_from_bytes_injective_witness :
  length [x00; x05] = length [x00; x05] ∧
  Py.int_from_bytes [x00; x05] Py.big = Py.int_from_bytes [x00; x05] Py.big ∧
  [x00; x05] = [x00; x05].
Proof.
  split; [reflexivity|]. split; [reflexivity|].
  exact (int_from_bytes_injective Py.big [x00; x05] [x00; x05]
           eq_refl eq_refl).
Defined.

(** Without the same length the integer does not determine the bytes. *)
Example trailing_zero_bytes :
  Py.int_from_bytes [x05] Py.little = Py.int_from_bytes [x05; x00] Py.little.
Proof. reflexivity. Qed.

(** X8: the element name used in the debug lines is the description with
    every space character removed. *)
Theorem elem_name_is_description_without_spaces (s : string) :
  Py.join "" (Py.split " " s) = without_spaces s.
Proof.
  unfold Py.join. induction s as [|c s IH]; [done|].
  cbn [Py.split without_spaces]. destruct (Ascii.eqb c " ").
  - by rewrite concat_empty_cons.
  - destruct (Py.split " " s) as [|x l] eqn:Hs.
    + by destruct (split_not_nil " " s).
    + rewrite concat_empty_cons. rewrite concat_empty_cons in IH.
      change (String c x +:+ String.concat "" l)
        with (String c (x +:+ String.concat "" l)).
      by rewrite IH.
Qed.

(** ** Properties of the run *)

Section Membership.

Lemma filter_calls (p : Event → bool) t :
  (∀ line, p (Emit line) = false) →
  List.filter p t = List.filter p (calls t).
Proof.
  intros Hp. unfold calls. induction t as [|ev t IH]; [done|].
  destruct ev; simpl; rewrite ?Hp, ?IH; done.
Qed.

Lemma elem_of_calls ev t : is_call ev = true → ev ∈ t → In ev (calls t).
Proof.
  intros Hev Hin. apply List.filter_In. split; [|done].
  by apply list_elem_of_In.
Qed.

End Membership.

(** The calls in the trace of the table, for each outcome of the library
    calls. *)
Lemma calls_expected (args : Args) (w : World) :
  calls (trace (snd (expected args w)))
  = match read_file w (dcmfile_in args) with
    | Parsed f =>
        create_AE args :: request_association args ::
        (if Established w (peer args) (port args) (called_aet args) then
           let c := Corrector (byte_order (TransferSyntaxUID (file_meta f)))
                      (elements f) in
           match fst c with
           | inl _ => []
           | inr _ =>
               SendCStore (snd c) ::
               match send_c_store w (snd c) with
               | Returns _ => [Release; Quit]
               | Raises => []
               end
           end
         else [Quit])
    | _ => []
    end.
Proof.
  unfold expected, final.
  destruct (read_file w (dcmfile_in args)) as [| |f]; cbn [snd trace].
  - by autorewrite with pieces.
  - by autorewrite with pieces.
  - destruct (Established w (peer args) (port args) (called_aet args));
      [|cbn [snd trace]; by autorewrite with pieces].
    cbn zeta.
    destruct (Corrector (byte_order (TransferSyntaxUID (file_meta f)))
                (elements f)) as [[x|[]] d]; cbn [fst snd trace].
    + by autorewrite with pieces.
    + destruct (send_c_store w d); cbn [snd trace];
        by autorewrite with pieces.
Qed.


(** X10: in every run [send_c_store], [assoc.Release()] and [ae.Quit()]
    are each called at most once. *)
Theorem at_most_one_send_release_quit (args : Args) (w : World) :
  length (List.filter is_send (trace (snd (run args w)))) ≤ 1 ∧
  length (List.filter is_release (trace (snd (run args w)))) ≤ 1 ∧
  length (List.filter is_quit (trace (snd (run args w)))) ≤ 1.
Proof.
  rewrite (filter_calls is_send), (filter_calls is_release),
    (filter_calls is_quit) by done.
  rewrite run_expected, calls_expected.
  destruct (read_file w (dcmfile_in args)) as [| |f]; [simpl; lia..|].
  destruct (Established w (peer args) (port args) (called_aet args));
    [|simpl; lia].
  cbn zeta.
  destruct (fst (Corrector (byte_order (TransferSyntaxUID (file_meta f)))
                   (elements f))); [simpl; lia|].
  destruct (send_c_store w _); simpl; lia.
Qed.

(** X11: whatever data set a run passes to [send_c_store] is the parsed
    data set as the Corrector returned it, and carries neither the VR
    "US or SS" nor the VR "OB or OW". *)
Theorem sent_data_set_is_corrected
    (args : Args) (w : World) (d : list DataElement) :
  SendCStore d ∈ trace (snd (run args w)) →
  Forall (λ e, ¬ ambiguous e) d ∧
  ∃ f, read_file w (dcmfile_in args) = Parsed f ∧
       Established w (peer args) (port args) (called_aet args) = true ∧
       Corrector (byte_order (TransferSyntaxUID (file_meta f))) (elements f)
       = (inr tt, d).
Proof.
  intros Hin. apply elem_of_calls in Hin; [|done].
  rewrite run_expected, calls_expected in Hin.
  destruct (read_file w (dcmfile_in args)) as [| |f]; [done..|].
  destruct (Established w (peer args) (port args) (called_aet args)) eqn:Hest.
  - cbn zeta in Hin.
    destruct (Corrector (byte_order (TransferSyntaxUID (file_meta f)))
                (elements f)) as [[x|[]] d'] eqn:Hc; cbn [fst snd] in Hin.
    + destruct Hin as [|[|[]]]; discriminate.
    + assert (d' = d) as ->.
      { destruct Hin as [|[|[Hd|Hin]]]; try discriminate; [by injection Hd|].
        destruct (send_c_store w d'); simpl in Hin; [|done].
        destruct Hin as [|[|[]]]; discriminate. }
      split; [|by exists f].
      assert (Hdec : decodable (elements f)).
      { apply (Corrector_returns_iff (byte_order
                 (TransferSyntaxUID (file_meta f)))). by rewrite Hc. }
      rewrite (Corrector_decodable _ _ Hdec) in Hc. injection Hc as <-.
      apply rewritten_all_concrete.
  - destruct Hin as [|[|[|[]]]]; discriminate.
Qed.

Lemma sent_data_set_is_corrected_witness :
  SendCStore (rewritten Py.little <$> elements Sample.ct)
    ∈ trace (snd (run Edge.plain (Sample.accepting Success))) ∧
  Forall (λ e, ¬ ambiguous e) (rewritten Py.little <$> elements Sample.ct) ∧
  ∃ f, read_file (Sample.accepting Success) (dcmfile_in Edge.plain)
       = Parsed f ∧
       Established (Sample.accepting Success) (peer Edge.plain)
         (port Edge.plain) (called_aet Edge.plain) = true ∧
       Corrector (byte_order (TransferSyntaxUID (file_meta f))) (elements f)
       = (inr tt, rewritten Py.little <$> elements Sample.ct).
Proof.
  assert (H : SendCStore (rewritten Py.little <$> elements Sample.ct)
                ∈ trace (snd (run Edge.plain (Sample.accepting Success)))).
  { apply list_elem_of_In. vm_compute. right. right. left. reflexivity. }
  split; [exact H|].
  exact (sent_data_set_is_corrected Edge.plain (Sample.accepting Success)
           (rewritten Py.little <$> elements Sample.ct) H).
Defined.

(** X12: a file with a US-or-SS element that holds no byte string is not
    sent: with the association established the run ends with the TypeError
    of line 157 and exit status 1, after the association request and
    before any [send_c_store], [assoc.Release()] or [ae.Quit()]. *)
Theorem undecodable_file_is_not_sent (args : Args) (w : World) (f : Dataset) :
  read_file w (dcmfile_in args) = Parsed f →
  Established w (peer args) (port args) (called_aet args) = true →
  ¬ decodable (elements f) →
  fst (run args w) = inl TypeError ∧
  exit_status (run args w) = 1%Z ∧
  calls (trace (snd (run args w)))
  = [create_AE args; request_association args].
Proof.
  intros Hread Hest Hdec.
  assert (Hc : fst (Corrector (byte_order (TransferSyntaxUID (file_meta f)))
                      (elements f)) = inl TypeError).
  { destruct (fst (Corrector (byte_order (TransferSyntaxUID (file_meta f)))
                     (elements f))) as [x|[]] eqn:Hc.
    - by rewrite (Corrector_raises_TypeError _ _ _ Hc).
    - by apply Corrector_returns_iff in Hc. }
  rewrite run_expected, calls_expected, Hread, Hest. cbn zeta. rewrite Hc.
  unfold exit_status, expected.
  rewrite Hread, Hest. cbn zeta. by rewrite Hc.
Qed.

Lemma undecodable_file_is_not_sent_witness :
  read_file Edge.serving (dcmfile_in Sample.argv) = Parsed Edge.series ∧
  Established Edge.serving (peer Sample.argv) (port Sample.argv)
    (called_aet Sample.argv) = true ∧
  ¬ decodable (elements Edge.series) ∧
  fst (run Sample.argv Edge.serving) = inl TypeError ∧
  exit_status (run Sample.argv Edge.serving) = 1%Z ∧
  calls (trace (snd (run Sample.argv Edge.serving)))
  = [create_AE Sample.argv; request_association Sample.argv].
Proof.
  assert (H : ¬ decodable (elements Edge.series)).
  { intros H. apply (Corrector_returns_iff Py.little) in H. discriminate. }
  split; [reflexivity|]. split; [reflexivity|]. split; [exact H|].
  exact (undecodable_file_is_not_sent Sample.argv Edge.serving Edge.series
           eq_refl eq_refl H).
Defined.



(** X14: the option [-q] is parsed and never read: with it or without it
    the run is the same, error lines included. *)
Theorem quiet_is_not_read (b : bool) (args : Args) (w : World) :
  run (with_quiet b args) w = run args w.
Proof. by rewrite !run_expected. Qed.





(** X17: with the logger at level DEBUG the loop prints, in the order of
    the data set, exactly one line for each element whose VR is "US or SS"
    or "OB or OW" and none for any other element. *)
Theorem debug_prints_one_line_per_ambiguous_element
    (order : Py.byteorder) (st : State) :
  level st = DEBUG →
  decodable (dataset st) →
  trace (snd (correct_ambiguous_VRs order st))
  = trace st ++ flat_map (elem_lines DEBUG) (dataset st) ∧
  length (flat_map (elem_lines DEBUG) (dataset st))
  = length (List.filter (λ e, has_VR "US or SS" e || has_VR "OB or OW" e)
              (dataset st)).
Proof.
  intros Hlvl Hdec. rewrite correct_ambiguous_VRs_exact. cbn [snd trace with_trace].
  rewrite Hlvl, (loop_lines_decodable _ _ Hdec). split; [done|].
  clear Hdec. induction (dataset st) as [|e ds IH]; [done|]. simpl.
  rewrite length_app, elem_lines_count, IH.
  by destruct (has_VR "US or SS" e || has_VR "OB or OW" e).
Qed.

Lemma debug_prints_one_line_per_ambiguous_element_witness :
  level (with_level DEBUG (with_dataset (elements Sample.ct) initial))
  = DEBUG ∧
  decodable
    (dataset (with_level DEBUG (with_dataset (elements Sample.ct) initial))) ∧
  trace (snd (correct_ambiguous_VRs Py.little
                (with_level DEBUG (with_dataset (elements Sample.ct) initial))))
  = [Emit "D: Setting undefined VR of SmallestImagePixelValue (0028, 0106) to 'US'";
     Emit "D: Setting undefined VR of PixelData (7fe0, 0010) to 'OW'"].
Proof.
  split; [reflexivity|]. split; [exact sample_decodable|].
  exact (proj1 (debug_prints_one_line_per_ambiguous_element Py.little
                  (with_level DEBUG (with_dataset (elements Sample.ct) initial))
                  eq_refl sample_decodable)).
Defined.

(** X18: [-d] wins over [-v]: at the end of every run the logger is at
    level DEBUG if [-d] was given, else at INFO if [-v] was given, else at
    ERROR. *)
Theorem debug_wins_over_verbose (args : Args) (w : World) :
  level (snd (run args w))
  = if debug args then DEBUG else if verbose args then INFO else ERROR.
Proof.
  rewrite run_expected. unfold expected, final.
  destruct (read_file w (dcmfile_in args)) as [| |f]; [done..|].
  destruct (Established w (peer args) (port args) (called_aet args));
    [|done].
  cbn zeta.
  destruct (fst (Corrector (byte_order (TransferSyntaxUID (file_meta f)))
                   (elements f))); [done|].
  by destruct (send_c_store w _).
Qed.

(** X19: the [status] variable is bound exactly when [send_c_store]
    returned, and then to the status it returned. *)
Theorem status_is_what_send_returned
    (args : Args) (w : World) (s : Status) :
  status (snd (run args w)) = Some s ↔
  ∃ f, read_file w (dcmfile_in args) = Parsed f ∧
       Established w (peer args) (port args) (called_aet args) = true ∧
       decodable (elements f) ∧
       send_c_store w
         (snd (Corrector (byte_order (TransferSyntaxUID (file_meta f)))
                 (elements f))) = Returns s.
Proof.
  rewrite run_expected. unfold expected, final.
  destruct (read_file w (dcmfile_in args)) as [| |f] eqn:Hread; cbn [snd status].
  - split; [done|]. by intros (f & ? & _).
  - split; [done|]. by intros (f & ? & _).
  - destruct (Established w (peer args) (port args) (called_aet args))
      eqn:Hest; cbn [snd status].
    + cbn zeta.
      pose proof (Corrector_returns_iff
                    (byte_order (TransferSyntaxUID (file_meta f)))
                    (elements f)) as Hiff.
      destruct (Corrector (byte_order (TransferSyntaxUID (file_meta f)))
                  (elements f)) as [[x|[]] d] eqn:Hc; cbn [fst snd status] in *.
      * split; [done|]. intros (f' & [= <-] & _ & Hdec & _).
        by apply Hiff in Hdec.
      * destruct (send_c_store w d) eqn:Hsend; cbn [snd status].
        -- split.
           ++ intros [= ->]. exists f. split; [done|]. split; [done|].
              split; [by apply Hiff|]. by rewrite Hc.
           ++ intros (f' & [= <-] & _ & _ & Hr).
              rewrite Hc in Hr. cbn [snd] in Hr. congruence.
        -- split; [done|]. intros (f' & [= <-] & _ & _ & Hr).
           rewrite Hc in Hr. cbn [snd] in Hr. congruence.
    + split; [done|]. by intros (f' & _ & ? & _).
Qed.

Lemma status_is_what_send_returned_witness :
  status (snd (run Sample.argv (Sample.accepting (Warning 0xB000))))
  = Some (Warning 0xB000).
Proof.
  apply (proj2 (status_is_what_send_returned Sample.argv
                  (Sample.accepting (Warning 0xB000)) (Warning 0xB000))).
  exists Sample.ct. split; [reflexivity|]. split; [reflexivity|].
  split; [exact sample_decodable|reflexivity].
Defined.
